(** * Price alert bot: a shallow embedding of [price_alert_bot.py]

    The bot keeps a dictionary of price alerts, polls a market-data client
    for the last traded price of every alert, and sends one Telegram message
    when a price crosses its threshold.  The development has four layers:

    - [Float]: IEEE binary64 values and the two comparisons the bot uses;
    - [Dict]: Python's insertion-ordered [dict], as an association list;
    - the collaborators ([world]), the events they exchange with the bot and
      a small state/exception/trace monad [M];
    - the methods of [PriceAlertBot], one definition per method. *)

From Stdlib Require Import ZArith List String Ascii Bool Lia.
From Stdlib Require Import Floats.SpecFloat.
Import ListNotations.
Local Open Scope string_scope.
Local Open Scope list_scope.

(** ** Floats *)

Module Float.

(** A Python [float] is an IEEE 754 binary64 value. *)
Definition float := spec_float.

Definition prec : Z := 53.
Definition emax : Z := 1024.

(** [x < y] and [x > y] on floats; both are false when either side is NaN. *)
Definition lt (x y : float) : bool := SFltb x y.
Definition gt (x y : float) : bool := SFltb y x.
(** [x == y] on floats. *)
Definition eqb (x y : float) : bool := SFeqb x y.

(** The binary64 value nearest to the integer [n]. *)
Definition of_Z (n : Z) : float := binary_normalize prec emax n 0 false.

(** The binary64 value nearest to [n / 10^k]: the value of a decimal literal
    with digits [n] and [k] digits after the point (exact operands, one
    correctly rounded division). *)
Definition of_decimal (n : Z) (k : nat) : float :=
  SFdiv prec emax (of_Z n) (of_Z (10 ^ Z.of_nat k)).

Definition nan : float := S754_nan.

End Float.

Abbreviation float := Float.float.

(** ** Dictionaries *)

Module Dict.

Section Defs.
Context {V : Type}.

(** A [dict] with string keys: bindings in insertion order. *)
Definition t := list (string * V).

Definition empty : t := [].

(** [k in d] *)
Fixpoint mem (k : string) (d : t) : bool :=
  match d with
  | [] => false
  | (k', _) :: d' => if String.eqb k k' then true else mem k d'
  end.

(** [d.get(k)] *)
Fixpoint get (k : string) (d : t) : option V :=
  match d with
  | [] => None
  | (k', v) :: d' => if String.eqb k k' then Some v else get k d'
  end.

(** [d[k] = v]: an existing key keeps its place and takes the new value,
    a new key goes to the end. *)
Fixpoint set (k : string) (v : V) (d : t) : t :=
  match d with
  | [] => [(k, v)]
  | (k', v') :: d' =>
      if String.eqb k k' then (k, v) :: d' else (k', v') :: set k v d'
  end.

(** [del d[k]], for a key that is present. *)
Fixpoint del (k : string) (d : t) : t :=
  match d with
  | [] => []
  | (k', v') :: d' =>
      if String.eqb k k' then d' else (k', v') :: del k d'
  end.

(** [d.items()] *)
Definition items (d : t) : list (string * V) := d.

Definition keys (d : t) : list string := map fst d.

(** Truth value of a dict: non-empty. *)
Definition truthy (d : t) : bool :=
  match d with [] => false | _ :: _ => true end.

(** The bindings of [d] whose key is [k]. *)
Definition bindings (k : string) (d : t) : list V :=
  map snd (filter (fun kv => String.eqb k (fst kv)) d).

(** Keys are pairwise distinct: the invariant of every Python dict. *)
Definition wf (d : t) : Prop := NoDup (keys d).

End Defs.

Arguments t : clear implicits.

End Dict.

(** ** Exceptions, events and collaborators *)

(** The exception classes the bot distinguishes.  [KeyboardInterrupt] is a
    [BaseException] only, and [OtherBaseException] stands for the other
    classes of that kind ([SystemExit], [GeneratorExit]); the rest derive
    from [Exception]. *)
Inductive exn : Type :=
| KeyboardInterrupt
| OtherBaseException
| TelegramError
| ValueError
| KeyError
| OtherException.

Definition is_Exception (e : exn) : bool :=
  match e with
  | KeyboardInterrupt | OtherBaseException => false
  | _ => true
  end.

Definition is_TelegramError (e : exn) : bool :=
  match e with TelegramError => true | _ => false end.

Definition is_KeyboardInterrupt (e : exn) : bool :=
  match e with KeyboardInterrupt => true | _ => false end.

(** How a call ends. *)
Inductive outcome (A : Type) : Type :=
| Return (a : A)
| Raise (e : exn).
Arguments Return {A} a.
Arguments Raise {A} e.

(** One alert: the value stored under a symbol in [self.alerts]. *)
Record alert : Type := mkAlert {
  exchange : string;
  token : string;
  target_price : float;
  direction : string
}.

(** The text of a Telegram message,
    [f"Price Alert: {symbol} LTP {ltp} crossed {word} {target}"],
    kept as its four parts. *)
Record message : Type := PriceAlert {
  msg_symbol : string;
  msg_ltp : float;
  msg_word : string;
  msg_target : float
}.

(** What the bot writes to the log. *)
Inductive log_line : Type :=
| InfoLoggedIn
| ErrorLoginFailed
| InfoAdded (symbol direction : string) (target_price : float)
| WarningLtpNotFound (token : string)
| ErrorFetchingLtp (token : string) (e : exn)
| InfoSent (m : message)
| ErrorSendFailed (e : exn)
| ErrorCannotStart
| InfoStarting
| InfoNoAlerts
| InfoStopped.

(** What the bot does to the outside: calls to its collaborators and log
    lines, in program order. *)
Inductive event : Type :=
| ApiLogin
| ApiGetQuotes (exchange token : string)
| TelegramSend (chat_id : string) (text : message)
| Sleep (seconds : Z)
| Log (l : log_line).

(** [float(v)] for a value [v] of a quote: [None] when Python raises
    [ValueError] or [TypeError]. *)
Class Floatable (V : Type) : Type := py_float : V -> option float.

(** The collaborators during one pass of the polling loop:
    [api.get_quotes(exchange, token)] returns [None] or a dict, or raises;
    [telegram_bot.send_message(chat_id, text)] returns or raises. *)
Record world (V : Type) : Type := mkWorld {
  get_quotes : string -> string -> outcome (option (Dict.t V));
  send_message : string -> message -> outcome unit
}.
Arguments mkWorld {V} _ _.
Arguments get_quotes {V} _ _ _.
Arguments send_message {V} _ _ _.

(** ** The bot's state and its monad *)

(** The mutable fields of a [PriceAlertBot] (and the two constants that show
    in its calls). *)
Record bot : Type := mkBot {
  alerts : Dict.t alert;
  logged_in : bool;
  chat_id : string;
  poll_interval : Z
}.

Definition set_alerts (d : Dict.t alert) (s : bot) : bot :=
  mkBot d (logged_in s) (chat_id s) (poll_interval s).

Definition set_logged_in (b : bool) (s : bot) : bot :=
  mkBot (alerts s) b (chat_id s) (poll_interval s).

(** [PriceAlertBot.__init__], with [poll_interval=30] by default. *)
Definition init (telegram_chat_id : string) (poll : Z) : bot :=
  mkBot Dict.empty false telegram_chat_id poll.

(** A method: from the bot's state to an outcome, the new state and the
    events of the call. *)
Definition M (A : Type) : Type := bot -> outcome A * bot * list event.

Definition ret {A} (a : A) : M A := fun s => (Return a, s, []).

Definition raise {A} (e : exn) : M A := fun s => (Raise e, s, []).

Definition bind {A B} (m : M A) (f : A -> M B) : M B :=
  fun s =>
    match m s with
    | (Return a, s1, t1) =>
        match f a s1 with
        | (o, s2, t2) => (o, s2, t1 ++ t2)
        end
    | (Raise e, s1, t1) => (Raise e, s1, t1)
    end.

(** [try: m except C as e: h e], where [catches] tells the instances of [C]. *)
Definition try_except {A} (m : M A) (catches : exn -> bool) (h : exn -> M A)
  : M A :=
  fun s =>
    match m s with
    | (Return a, s1, t1) => (Return a, s1, t1)
    | (Raise e, s1, t1) =>
        if catches e then
          match h e s1 with
          | (o, s2, t2) => (o, s2, t1 ++ t2)
          end
        else (Raise e, s1, t1)
    end.

Definition emit (ev : event) : M unit := fun s => (Return tt, s, [ev]).

Definition logging (l : log_line) : M unit := emit (Log l).

Definition get_state : M bot := fun s => (Return s, s, []).

Definition modify (f : bot -> bot) : M unit := fun s => (Return tt, f s, []).

(** An emitted call followed by what the collaborator answers. *)
Definition call {A} (ev : event) (answer : outcome A) : M A :=
  fun s => (answer, s, [ev]).

(** [time.sleep(seconds)]: a negative length raises [ValueError]. *)
Definition sleep (seconds : Z) : M unit :=
  call (Sleep seconds)
    (if (seconds <? 0)%Z then Raise ValueError else Return tt).

Declare Scope bot_scope.
Delimit Scope bot_scope with bot.
Notation "x <- m ;; k" := (bind m (fun x => k))
  (at level 61, m at next level, right associativity) : bot_scope.
Notation "m ;; k" := (bind m (fun _ => k))
  (at level 61, right associativity) : bot_scope.
Local Open Scope bot_scope.

(** ** The methods of [PriceAlertBot] *)

(** [login_market_api], given what reading the credentials and calling
    [api.login] come to: a returned value ([None] on a refused login) or an
    exception. *)
Definition login_market_api (login : outcome (option unit)) : M unit :=
  r <- call ApiLogin login ;;
  match r with
  | Some _ => modify (set_logged_in true) ;; logging InfoLoggedIn
  | None => logging ErrorLoginFailed ;; modify (set_logged_in false)
  end.

(** [add_alert]: [self.alerts[symbol] = {...}], then one log line. *)
Definition add_alert (symbol exchange token : string) (target_price : float)
  (direction : string) : M unit :=
  s <- get_state ;;
  modify (set_alerts
            (Dict.set symbol (mkAlert exchange token target_price direction)
               (alerts s))) ;;
  logging (InfoAdded symbol direction target_price).

Section Methods.
Context {V : Type} {FV : Floatable V}.

(** [quote and k in quote] *)
Definition quote_has (quote : option (Dict.t V)) (k : string) : bool :=
  match quote with
  | Some d => Dict.truthy d && Dict.mem k d
  | None => false
  end.

(** [quote[k]] *)
Definition subscript (quote : option (Dict.t V)) (k : string) : M V :=
  match quote with
  | Some d =>
      match Dict.get k d with
      | Some v => ret v
      | None => raise KeyError
      end
  | None => raise OtherException
  end.

(** [float(v)] *)
Definition to_float (v : V) : M float :=
  match py_float v with
  | Some f => ret f
  | None => raise ValueError
  end.

Definition fetch_ltp (w : world V) (exchange token : string)
  : M (option float) :=
  try_except
    (quote <- call (ApiGetQuotes exchange token) (get_quotes w exchange token) ;;
     if quote_has quote "lp" then
       v <- subscript quote "lp" ;;
       f <- to_float v ;;
       ret (Some f)
     else if quote_has quote "ltp" then
       v <- subscript quote "ltp" ;;
       f <- to_float v ;;
       ret (Some f)
     else
       logging (WarningLtpNotFound token) ;;
       ret None)
    is_Exception
    (fun e => logging (ErrorFetchingLtp token e) ;; ret None).

Definition send_telegram_alert (w : world V) (text : message) : M unit :=
  try_except
    (s <- get_state ;;
     call (TelegramSend (chat_id s) text) (send_message w (chat_id s) text) ;;
     logging (InfoSent text))
    is_TelegramError
    (fun e => logging (ErrorSendFailed e)).

(** [del self.alerts[symbol]] *)
Definition del_alert (symbol : string) : M unit :=
  s <- get_state ;;
  if Dict.mem symbol (alerts s)
  then modify (set_alerts (Dict.del symbol (alerts s)))
  else raise KeyError.

(** The [for] loop of [check_alerts] over the items still to visit.  The
    dictionary is only changed right before a [break], so the items the loop
    visits are those the dictionary had when the loop began. *)
Fixpoint check_loop (w : world V) (items : list (string * alert)) : M unit :=
  match items with
  | [] => ret tt
  | (symbol, a) :: rest =>
      ltp <- fetch_ltp w (exchange a) (token a) ;;
      match ltp with
      | None => check_loop w rest
      | Some ltp =>
          let target := target_price a in
          let direction := direction a in
          if String.eqb direction "above" && Float.gt ltp target then
            send_telegram_alert w (PriceAlert symbol ltp "above" target) ;;
            del_alert symbol
          else if String.eqb direction "below" && Float.lt ltp target then
            send_telegram_alert w (PriceAlert symbol ltp "below" target) ;;
            del_alert symbol
          else check_loop w rest
      end
  end.

Definition check_alerts (w : world V) : M unit :=
  s <- get_state ;;
  check_loop w (Dict.items (alerts s)).

(** The [while True] loop of [run], one world per pass.  When the worlds run
    out the operator interrupts the process: [KeyboardInterrupt] is raised in
    place of the next pass. *)
Fixpoint poll (ws : list (world V)) : M unit :=
  match ws with
  | [] => raise KeyboardInterrupt
  | w :: ws' =>
      s <- get_state ;;
      (if negb (Dict.truthy (alerts s))
       then logging InfoNoAlerts
       else check_alerts w) ;;
      sleep (poll_interval s) ;;
      poll ws'
  end.

Definition run (login : outcome (option unit)) (ws : list (world V)) : M unit :=
  login_market_api login ;;
  s <- get_state ;;
  if negb (logged_in s) then
    logging ErrorCannotStart
  else
    logging InfoStarting ;;
    try_except (poll ws) is_KeyboardInterrupt (fun _ => logging InfoStopped).

End Methods.

(** ** A sample quote format: decimal strings

    The market API answers with JSON whose prices are strings such as
    ["2501.00"].  [Decimal.parse] agrees with [float] on plain decimal
    literals (an optional minus sign, digits, at most one point) of up to
    15 digits.  [float] accepts more (a plus sign, exponents, surrounding
    spaces, [inf], [nan]); this sample reads none of that. *)

Module Decimal.

Definition digit (c : ascii) : option Z :=
  let n := Z.of_nat (nat_of_ascii c) in
  if (48 <=? n)%Z && (n <=? 57)%Z then Some (n - 48)%Z else None.

Fixpoint scan (s : string) (n : Z) (k : option nat) (seen : bool)
  : option (Z * nat) :=
  match s with
  | EmptyString =>
      if seen then Some (n, match k with Some k => k | None => 0%nat end)
      else None
  | String c s' =>
      if Ascii.eqb c "."%char then
        match k with
        | None => scan s' n (Some 0%nat) seen
        | Some _ => None
        end
      else
        match digit c with
        | Some d => scan s' (10 * n + d)%Z (option_map S k) true
        | None => None
        end
  end.

Definition unsigned (s : string) : option float :=
  match scan s 0%Z None false with
  | Some (n, k) => Some (Float.of_decimal n k)
  | None => None
  end.

Definition parse (s : string) : option float :=
  match s with
  | String "-"%char s' => option_map SFopp (unsigned s')
  | _ => unsigned s
  end.

End Decimal.

#[export] Instance Floatable_string : Floatable string := Decimal.parse.

(** The bot of the script's [__main__] block after its two [add_alert] calls. *)
Definition main_bot : bot :=
  let s0 := init "chat" 30 in
  let '(_, s1, _) := add_alert "RELIANCE-EQ" "NSE" "22" (Float.of_decimal 25000 1) "above" s0 in
  let '(_, s2, _) := add_alert "TCS-EQ" "NSE" "33" (Float.of_decimal 30000 1) "below" s1 in
  s2.

(** A world that quotes token 22 at 2501.0 and token 33 at 2950.0 and
    delivers every message. *)
Definition world_both_cross : world string :=
  mkWorld
    (fun _ tok =>
       if String.eqb tok "22" then Return (Some [("lp", "2501.0")])
       else if String.eqb tok "33" then Return (Some [("lp", "2950.0")])
       else Return None)
    (fun _ _ => Return tt).

(** The same quotes, with a notifier that fails with a [TelegramError]. *)
Definition world_send_fails : world string :=
  mkWorld (get_quotes world_both_cross) (fun _ _ => Raise TelegramError).

(** The same quotes, with a notifier that raises an exception that is not a
    [TelegramError]. *)
Definition world_send_crashes : world string :=
  mkWorld (get_quotes world_both_cross) (fun _ _ => Raise OtherException).

(** The same quotes, with the operator's interrupt arriving inside the call
    to the notifier. *)
Definition world_send_interrupted : world string :=
  mkWorld (get_quotes world_both_cross) (fun _ _ => Raise KeyboardInterrupt).

(** The world [w] with a notifier that delivers every message. *)
Definition delivering {V} (w : world V) : world V :=
  mkWorld (get_quotes w) (fun _ _ => Return tt).

(** The same world, except that the quote request for token 11 fails. *)
Definition world_first_fetch_fails : world string :=
  mkWorld
    (fun ex tok =>
       if String.eqb tok "11" then Raise OtherException
       else get_quotes world_both_cross ex tok)
    (fun _ _ => Return tt).

(** A bot with a third alert, added before the two of [main_bot]. *)
Definition three_bot : bot :=
  let s0 := init "chat" 30 in
  let '(_, s1, _) := add_alert "INFY-EQ" "NSE" "11" (Float.of_decimal 15000 1) "above" s0 in
  let '(_, s2, _) := add_alert "RELIANCE-EQ" "NSE" "22" (Float.of_decimal 25000 1) "above" s1 in
  let '(_, s3, _) := add_alert "TCS-EQ" "NSE" "33" (Float.of_decimal 30000 1) "below" s2 in
  s3.

(** A bot with the single alert [a] under the key [k]. *)
Definition single_bot (k : string) (a : alert) : bot :=
  mkBot [(k, a)] false "chat" 30.

(** A world that answers every quote request with the string [lp]. *)
Definition world_quoting (lp : string) : world string :=
  mkWorld (fun _ _ => Return (Some [("lp", lp)])) (fun _ _ => Return tt).

(** A world whose quote carries both price fields. *)
Definition world_two_fields : world string :=
  mkWorld (fun _ _ => Return (Some [("ltp", "1.0"); ("lp", "2501.0")]))
    (fun _ _ => Return tt).


(** The alerts of the direction tests: target 100.0, above and below. *)
Definition alert_above_100 : alert :=
  mkAlert "NSE" "1" (Float.of_decimal 1000 1) "above".
Definition alert_below_100 : alert :=
  mkAlert "NSE" "1" (Float.of_decimal 1000 1) "below".

(** The message for RELIANCE-EQ at 2501.0. *)
Definition reliance_message : message :=
  PriceAlert "RELIANCE-EQ" (Float.of_decimal 25010 1) "above"
    (Float.of_decimal 25000 1).

(** ** Reading the result of a call *)

Definition outcome_of {A} (r : outcome A * bot * list event) : outcome A :=
  fst (fst r).
Definition state_of {A} (r : outcome A * bot * list event) : bot :=
  snd (fst r).
Definition trace_of {A} (r : outcome A * bot * list event) : list event :=
  snd r.

(** The Telegram messages handed to the notifier in a trace, in order. *)
Fixpoint sends (t : list event) : list message :=
  match t with
  | [] => []
  | TelegramSend _ m :: t' => m :: sends t'
  | _ :: t' => sends t'
  end.

(** The symbols a trace sent a notification for. *)
Definition notified (t : list event) : list string :=
  map msg_symbol (sends t).

(** The quote requests of a trace. *)
Fixpoint fetches (t : list event) : list (string * string) :=
  match t with
  | [] => []
  | ApiGetQuotes e k :: t' => (e, k) :: fetches t'
  | _ :: t' => fetches t'
  end.

(** The crossing condition of an alert at a price, as [check_alerts] tests
    it. *)
Definition crosses (a : alert) (p : float) : bool :=
  (String.eqb (direction a) "above" && Float.gt p (target_price a))
  || (String.eqb (direction a) "below" && Float.lt p (target_price a)).

(** What a notifier answer means for [send_telegram_alert]: the call returns
    when the message was delivered or a [TelegramError] was handled. *)
Definition handled (r : outcome unit) : outcome unit :=
  match r with
  | Return _ => Return tt
  | Raise e => if is_TelegramError e then Return tt else Raise e
  end.

Section Specs.
Context {V : Type} {FV : Floatable V}.

(** The price of a quote in the specification's words: the ['lp'] field when
    the response has it, else the ['ltp'] field, and no price when the
    response is missing or empty, has neither field, or the chosen field
    does not parse. *)
Definition price_of_quote (q : option (Dict.t V)) : option float :=
  match q with
  | None => None
  | Some d =>
      match Dict.get "lp" d with
      | Some v => py_float v
      | None =>
          match Dict.get "ltp" d with
          | Some v => py_float v
          | None => None
          end
      end
  end.

(** What [fetch_ltp] comes to for an answer of the quote source. *)
Definition fetched (r : outcome (option (Dict.t V))) : outcome (option float) :=
  match r with
  | Return q => Return (price_of_quote q)
  | Raise e => if is_Exception e then Return None else Raise e
  end.

(** The verdict of one pass over the items: nothing fired, the pass was
    interrupted, or one alert fired at a price. *)
Inductive verdict : Type :=
| Quiet
| Stopped (e : exn)
| Fired (symbol : string) (a : alert) (ltp : float).

Fixpoint scan (w : world V) (items : list (string * alert)) : verdict :=
  match items with
  | [] => Quiet
  | (k, a) :: rest =>
      match fetched (get_quotes w (exchange a) (token a)) with
      | Raise e => Stopped e
      | Return None => scan w rest
      | Return (Some p) => if crosses a p then Fired k a p else scan w rest
      end
  end.

(** The message [check_alerts] builds for an alert that fired. *)
Definition alert_message (k : string) (a : alert) (p : float) : message :=
  PriceAlert k p (direction a) (target_price a).

(** What a verdict comes to: the messages handed to the notifier, how the
    pass ends, and the bot it leaves. *)
Definition verdict_sends (v : verdict) : list message :=
  match v with
  | Fired k a p => [alert_message k a p]
  | _ => []
  end.

Definition verdict_outcome (w : world V) (s : bot) (v : verdict)
  : outcome unit :=
  match v with
  | Quiet => Return tt
  | Stopped e => Raise e
  | Fired k a p => handled (send_message w (chat_id s) (alert_message k a p))
  end.

Definition verdict_state (w : world V) (s : bot) (v : verdict) : bot :=
  match v with
  | Fired k a p =>
      match handled (send_message w (chat_id s) (alert_message k a p)) with
      | Return _ => set_alerts (Dict.del k (alerts s)) s
      | Raise _ => s
      end
  | _ => s
  end.

End Specs.

(** Registry operations, for statements about every sequence of them. *)
Inductive op (V : Type) : Type :=
| OpAdd (symbol exchange token : string) (target_price : float)
    (direction : string)
| OpCheck (w : world V).
Arguments OpAdd {V} _ _ _ _ _.
Arguments OpCheck {V} _.

Definition step {V} {FV : Floatable V} (o : op V) : M unit :=
  match o with
  | OpAdd k e t p d => add_alert k e t p d
  | OpCheck w => check_alerts w
  end.

(** The bot after a sequence of operations; a caller that survives an
    exception of one operation goes on with the next. *)
Fixpoint exec {V} {FV : Floatable V} (ops : list (op V)) (s : bot) : bot :=
  match ops with
  | [] => s
  | o :: ops' => exec ops' (state_of (step o s))
  end.

(** ** More ways to read a trace *)

(** A trace without its log lines: the calls to the outside, in order. *)
Definition is_call (ev : event) : bool :=
  match ev with Log _ => false | _ => true end.

Definition unlogged (t : list event) : list event := filter is_call t.

(** The chat ids the messages of a trace were sent to. *)
Fixpoint send_chats (t : list event) : list string :=
  match t with
  | [] => []
  | TelegramSend c _ :: t' => c :: send_chats t'
  | _ :: t' => send_chats t'
  end.

(** The lengths of the sleeps of a trace. *)
Fixpoint sleeps (t : list event) : list Z :=
  match t with
  | [] => []
  | Sleep n :: t' => n :: sleeps t'
  | _ :: t' => sleeps t'
  end.

(** The quote request [check_alerts] makes for an item of the registry. *)
Definition quote_request (ka : string * alert) : event :=
  ApiGetQuotes (exchange (snd ka)) (token (snd ka)).

Section Calls.
Context {V : Type} {FV : Floatable V}.

(** The items a pass over [items] visits: all of them up to the first that
    fires or interrupts the pass. *)
Fixpoint visited (w : world V) (items : list (string * alert))
  : list (string * alert) :=
  match items with
  | [] => []
  | (k, a) :: rest =>
      (k, a) ::
      match fetched (get_quotes w (exchange a) (token a)) with
      | Raise _ => []
      | Return None => visited w rest
      | Return (Some p) => if crosses a p then [] else visited w rest
      end
  end.

(** The calls of a pass: one quote request per visited item, then the
    message of the alert that fired, if one did. *)
Definition calls (w : world V) (chat : string)
  (items : list (string * alert)) : list event :=
  map quote_request (visited w items)
  ++ map (TelegramSend chat) (verdict_sends (scan w items)).

End Calls.

(** ** The script

    [os.getenv] gives [None] or a string; [None] and the empty string are
    false.  The script ends with [exit(1)] after one printed line, or builds
    the bot (the two clients are taken to construct without effect), adds
    its two alerts and runs it. *)

Definition env_truthy (v : option string) : bool :=
  match v with
  | Some s => negb (String.eqb s "")
  | None => false
  end.

Inductive main_result : Type :=
| Exited (status : Z) (printed : string)
| Ran (r : outcome unit * bot * list event).

Definition main {V} {FV : Floatable V} (telegram_token telegram_chat_id
  : option string) (login : outcome (option unit)) (ws : list (world V))
  : main_result :=
  match telegram_token, telegram_chat_id with
  | Some tok, Some chat =>
      if negb (env_truthy (Some tok)) || negb (env_truthy (Some chat)) then
        Exited 1
          "Please set TELEGRAM_BOT_TOKEN and TELEGRAM_CHAT_ID environment variables."
      else
        Ran ((add_alert "RELIANCE-EQ" "NSE" "22" (Float.of_decimal 25000 1)
                "above" ;;
              add_alert "TCS-EQ" "NSE" "33" (Float.of_decimal 30000 1)
                "below" ;;
              run login ws) (init chat 30))
  | _, _ =>
      Exited 1
        "Please set TELEGRAM_BOT_TOKEN and TELEGRAM_CHAT_ID environment variables."
  end.

(** * Properties *)

(** ** Floats *)

Module FloatFacts.

Lemma compare_eq_sym (x y : float) :
  SFcompare x y = Some Eq -> SFcompare y x = Some Eq.
Proof.
  destruct x as [sx|sx| |sx mx ex], y as [sy|sy| |sy my ey]; simpl;
    try discriminate; try reflexivity;
    try (destruct sx, sy; simpl; congruence).
  destruct sx, sy; try discriminate.
  - destruct (Z.compare ex ey) eqn:E; try discriminate.
    apply Z.compare_eq in E; subst ey. rewrite Z.compare_refl.
    intros H. injection H as H.
    destruct (Pos.compare_cont Eq mx my) eqn:C; try discriminate.
    apply Pos.compare_eq in C. subst my.
    rewrite Pos.compare_cont_refl. reflexivity.
  - destruct (Z.compare ex ey) eqn:E; try discriminate.
    apply Z.compare_eq in E; subst ey. rewrite Z.compare_refl.
    intros H. injection H as H.
    destruct (Pos.compare_cont Eq mx my) eqn:C; try discriminate.
    apply Pos.compare_eq in C. subst my.
    rewrite Pos.compare_cont_refl. reflexivity.
Qed.

(** Equal floats are not ordered, in either direction. *)
Lemma eqb_not_lt (x y : float) : Float.eqb x y = true -> Float.lt x y = false.
Proof.
  unfold Float.eqb, Float.lt, SFeqb, SFltb.
  destruct (SFcompare x y) as [[]|]; congruence.
Qed.

Lemma eqb_not_gt (x y : float) : Float.eqb x y = true -> Float.gt x y = false.
Proof.
  unfold Float.eqb, Float.gt, SFeqb, SFltb. intros H.
  destruct (SFcompare x y) as [[]|] eqn:E; try discriminate.
  rewrite (compare_eq_sym _ _ E). reflexivity.
Qed.

End FloatFacts.

(** ** Dictionaries *)

Module DictFacts.

Section Facts.
Context {V : Type}.
Implicit Types (d : Dict.t V) (k : string) (v : V).

Lemma mem_keys k d : Dict.mem k d = true <-> In k (Dict.keys d).
Proof.
  induction d as [|[k' v'] d IH]; simpl.
  - split; [discriminate | tauto].
  - destruct (String.eqb_spec k k') as [->|N].
    + split; auto.
    + rewrite IH. split; [auto | intros [E|I]; [congruence | exact I]].
Qed.

Lemma mem_false_keys k d : Dict.mem k d = false <-> ~ In k (Dict.keys d).
Proof.
  rewrite <- mem_keys. destruct (Dict.mem k d); split; congruence.
Qed.

Lemma In_mem k v d : In (k, v) d -> Dict.mem k d = true.
Proof.
  intros H. apply mem_keys. unfold Dict.keys.
  change k with (fst (k, v)). now apply in_map.
Qed.

Lemma mem_get k d : Dict.mem k d = true -> exists v, Dict.get k d = Some v.
Proof.
  induction d as [|[k' v'] d IH]; simpl; [discriminate|].
  destruct (String.eqb k k'); eauto.
Qed.

Lemma not_mem_get k d : Dict.mem k d = false -> Dict.get k d = None.
Proof.
  induction d as [|[k' v'] d IH]; simpl; [reflexivity|].
  destruct (String.eqb k k'); [discriminate | exact IH].
Qed.

Lemma keys_del_incl k d : incl (Dict.keys (Dict.del k d)) (Dict.keys d).
Proof.
  induction d as [|[k' v'] d IH]; simpl; [apply incl_refl|].
  destruct (String.eqb k k'); simpl.
  - apply incl_tl, incl_refl.
  - intros x [E|I]; [left; exact E | right; apply IH, I].
Qed.

Lemma wf_del k d : Dict.wf d -> Dict.wf (Dict.del k d).
Proof.
  unfold Dict.wf. induction d as [|[k' v'] d IH]; simpl; [auto|].
  intros H. inversion H as [|? ? Hn Hd]; subst.
  destruct (String.eqb k k'); simpl; [exact Hd|].
  constructor; [|auto].
  intros I. apply Hn. now apply (keys_del_incl k d).
Qed.

(** After [del d[k]] the key is gone. *)
Lemma mem_del_same k d : Dict.wf d -> Dict.mem k (Dict.del k d) = false.
Proof.
  unfold Dict.wf. induction d as [|[k' v'] d IH]; simpl; [reflexivity|].
  intros H. inversion H as [|? ? Hn Hd]; subst.
  destruct (String.eqb_spec k k') as [->|N]; simpl.
  - now apply mem_false_keys.
  - destruct (String.eqb_spec k k'); [congruence | auto].
Qed.

(** Deleting never brings a key in. *)
Lemma mem_del_absent k k' d :
  Dict.mem k d = false -> Dict.mem k (Dict.del k' d) = false.
Proof.
  rewrite !mem_false_keys. intros H I. apply H.
  now apply (keys_del_incl k' d).
Qed.

(** Deleting one key leaves the others. *)
Lemma mem_del_other k k' d :
  k' <> k -> Dict.mem k (Dict.del k' d) = Dict.mem k d.
Proof.
  intros N. induction d as [|[k0 v0] d IH]; cbn; [reflexivity|].
  destruct (String.eqb_spec k' k0) as [->|N0]; cbn.
  - destruct (String.eqb_spec k k0); [congruence | reflexivity].
  - now rewrite IH.
Qed.

Lemma get_del_other k k' d :
  k' <> k -> Dict.get k (Dict.del k' d) = Dict.get k d.
Proof.
  intros N. induction d as [|[k0 v0] d IH]; cbn; [reflexivity|].
  destruct (String.eqb_spec k' k0) as [->|N0]; cbn.
  - destruct (String.eqb_spec k k0); [congruence | reflexivity].
  - now rewrite IH.
Qed.

(** In a well-formed dict a binding is the one [get] finds. *)
Lemma In_get k v d : Dict.wf d -> In (k, v) d -> Dict.get k d = Some v.
Proof.
  unfold Dict.wf. induction d as [|[k0 v0] d IH]; cbn; [tauto|].
  intros H. inversion H as [|? ? Hn Hd]; subst.
  intros [E|I].
  - injection E as -> ->. now rewrite String.eqb_refl.
  - destruct (String.eqb_spec k k0) as [->|N]; [|auto].
    exfalso. apply Hn. change k0 with (fst (k0, v)). now apply in_map.
Qed.

Lemma keys_set k v d :
  Dict.keys (Dict.set k v d) =
  if Dict.mem k d then Dict.keys d else Dict.keys d ++ [k].
Proof.
  induction d as [|[k' v'] d IH]; simpl; [reflexivity|].
  destruct (String.eqb_spec k k') as [->|N]; simpl; [reflexivity|].
  rewrite IH. destruct (Dict.mem k d); reflexivity.
Qed.

Lemma wf_set k v d : Dict.wf d -> Dict.wf (Dict.set k v d).
Proof.
  unfold Dict.wf. rewrite keys_set. intros H.
  destruct (Dict.mem k d) eqn:E; [exact H|].
  apply mem_false_keys in E.
  apply NoDup_rev in H. rewrite <- (rev_involutive (Dict.keys d ++ [k])).
  apply NoDup_rev. rewrite rev_app_distr. simpl.
  constructor; [|exact H]. now rewrite <- in_rev.
Qed.

Lemma get_set_same k v d : Dict.get k (Dict.set k v d) = Some v.
Proof.
  induction d as [|[k' v'] d IH]; simpl.
  - now rewrite String.eqb_refl.
  - destruct (String.eqb_spec k k') as [->|N]; simpl.
    + now rewrite String.eqb_refl.
    + destruct (String.eqb_spec k k'); [congruence | exact IH].
Qed.

Lemma bindings_absent k d : Dict.mem k d = false -> Dict.bindings k d = [].
Proof.
  unfold Dict.bindings.
  induction d as [|[k' v'] d IH]; simpl; [reflexivity|].
  destruct (String.eqb k k'); [discriminate | exact IH].
Qed.

(** In a well-formed dict a key has at most one binding, the one [get]
    finds. *)
Lemma bindings_get k d :
  Dict.wf d ->
  Dict.bindings k d = match Dict.get k d with Some v => [v] | None => [] end.
Proof.
  unfold Dict.wf, Dict.bindings.
  induction d as [|[k' v'] d IH]; simpl; [reflexivity|].
  intros H. inversion H as [|? ? Hn Hd]; subst.
  destruct (String.eqb_spec k k') as [->|N]; simpl.
  - apply mem_false_keys in Hn.
    f_equal. exact (bindings_absent _ _ Hn).
  - auto.
Qed.

Lemma bindings_at_most_one k d :
  Dict.wf d -> (List.length (Dict.bindings k d) <= 1)%nat.
Proof.
  intros H. rewrite (bindings_get _ _ H).
  destruct (Dict.get k d); simpl; lia.
Qed.

End Facts.

End DictFacts.

(** ** Traces *)

Lemma sends_app (t1 t2 : list event) : sends (t1 ++ t2) = sends t1 ++ sends t2.
Proof.
  induction t1 as [|ev t1 IH]; simpl; [reflexivity|].
  destruct ev; simpl; rewrite ?IH; reflexivity.
Qed.

Lemma sends_logs (ls : list log_line) : sends (map Log ls) = [].
Proof. induction ls; simpl; auto. Qed.

Lemma notified_app (t1 t2 : list event) :
  notified (t1 ++ t2) = notified t1 ++ notified t2.
Proof. unfold notified. now rewrite sends_app, map_app. Qed.

(** ** The two collaborator calls *)

Section CallFacts.
Context {V : Type} {FV : Floatable V}.
Implicit Types (w : world V) (s : bot).

Lemma quote_has_get (d : Dict.t V) (k : string) :
  quote_has (Some d) k = true -> exists v, Dict.get k d = Some v.
Proof.
  unfold quote_has. intros H. apply andb_prop in H as [_ H].
  now apply DictFacts.mem_get.
Qed.

Lemma quote_has_not_get (d : Dict.t V) (k : string) :
  quote_has (Some d) k = false -> Dict.get k d = None.
Proof.
  unfold quote_has. destruct d as [|b d]; [reflexivity|].
  cbn [Dict.truthy andb]. apply DictFacts.not_mem_get.
Qed.

(** [fetch_ltp] leaves the bot as it was, asks the quote source once, logs,
    and returns the price of the answer; only an exception outside
    [Exception] gets through. *)
Lemma fetch_ltp_eq w ex tok s :
  exists ls,
    fetch_ltp w ex tok s =
    (fetched (get_quotes w ex tok), s, ApiGetQuotes ex tok :: map Log ls).
Proof.
  unfold fetch_ltp, try_except, bind, call, fetched.
  destruct (get_quotes w ex tok) as [q|e].
  - destruct q as [d|].
    + destruct (quote_has (Some d) "lp") eqn:Hlp.
      * destruct (quote_has_get _ _ Hlp) as [v Hv].
        unfold subscript, to_float, price_of_quote. rewrite Hv. cbn.
        destruct (py_float v) as [f|]; cbn.
        -- now exists [].
        -- now exists [ErrorFetchingLtp tok ValueError].
      * pose proof (quote_has_not_get _ _ Hlp) as Hn.
        destruct (quote_has (Some d) "ltp") eqn:Hltp.
        -- destruct (quote_has_get _ _ Hltp) as [v Hv].
           unfold subscript, to_float, price_of_quote. rewrite Hn, Hv. cbn.
           destruct (py_float v) as [f|]; cbn.
           ++ now exists [].
           ++ now exists [ErrorFetchingLtp tok ValueError].
        -- pose proof (quote_has_not_get _ _ Hltp) as Hn'.
           unfold price_of_quote. rewrite Hn, Hn'. cbn.
           now exists [WarningLtpNotFound tok].
    + cbn. now exists [WarningLtpNotFound tok].
  - destruct (is_Exception e) eqn:He; cbn.
    + now exists [ErrorFetchingLtp tok e].
    + now exists [].
Qed.

(** [send_telegram_alert] leaves the bot as it was and hands the message to
    the notifier once; a [TelegramError] is logged, any other exception gets
    through. *)
Lemma send_telegram_alert_eq w m s :
  exists ls,
    send_telegram_alert w m s =
    (handled (send_message w (chat_id s) m), s,
     TelegramSend (chat_id s) m :: map Log ls).
Proof.
  unfold send_telegram_alert, try_except, bind, call, get_state, handled.
  cbn. destruct (send_message w (chat_id s) m) as [[]|e]; cbn.
  - now exists [InfoSent m].
  - destruct (is_TelegramError e); cbn.
    + now exists [ErrorSendFailed e].
    + now exists [].
Qed.

End CallFacts.

(** ** The evaluation pass *)

Section LoopFacts.
Context {V : Type} {FV : Floatable V}.
Implicit Types (w : world V) (s : bot) (items : list (string * alert)).

Lemma bind_return {A B} (m : M A) (f : A -> M B) s a s1 t1 :
  m s = (Return a, s1, t1) ->
  bind m f s =
  (outcome_of (f a s1), state_of (f a s1), t1 ++ trace_of (f a s1)).
Proof.
  unfold bind, outcome_of, state_of, trace_of. intros ->.
  destruct (f a s1) as [[o s2] t2]. reflexivity.
Qed.

Lemma bind_raise {A B} (m : M A) (f : A -> M B) s e s1 t1 :
  m s = (Raise e, s1, t1) -> bind m f s = (Raise e, s1, t1).
Proof. unfold bind. now intros ->. Qed.

Lemma del_alert_eq k s :
  Dict.mem k (alerts s) = true ->
  del_alert k s = (Return tt, set_alerts (Dict.del k (alerts s)) s, []).
Proof.
  intros H. unfold del_alert, bind, get_state, modify. cbn. now rewrite H.
Qed.

(** Sending the message of a fired alert and deleting the alert. *)
Lemma send_then_del w k a p s :
  Dict.mem k (alerts s) = true ->
  exists t,
    (send_telegram_alert w (alert_message k a p) ;; del_alert k) s =
    (verdict_outcome w s (Fired k a p), verdict_state w s (Fired k a p), t)
    /\ sends t = [alert_message k a p].
Proof.
  intros Hk.
  destruct (send_telegram_alert_eq w (alert_message k a p) s) as [ls E].
  cbn [verdict_outcome verdict_state].
  destruct (handled (send_message w (chat_id s) (alert_message k a p)))
    as [[]|e] eqn:Hh.
  - rewrite (bind_return _ _ _ _ _ _ E), (del_alert_eq _ _ Hk).
    cbn [outcome_of state_of trace_of fst snd].
    eexists; split; [reflexivity|].
    cbn. now rewrite sends_app, sends_logs.
  - rewrite (bind_raise _ _ _ _ _ _ E).
    eexists; split; [reflexivity|].
    cbn. now rewrite sends_logs.
Qed.

(** [check_loop] does what [scan] says: at most one alert fires, its message
    is the only one sent, and the bot changes only by the removal of that
    alert. *)
Lemma check_loop_scan w items s :
  (forall k a, In (k, a) items -> Dict.mem k (alerts s) = true) ->
  exists t,
    check_loop w items s =
    (verdict_outcome w s (scan w items), verdict_state w s (scan w items), t)
    /\ sends t = verdict_sends (scan w items).
Proof.
  induction items as [|[k a] rest IH]; intros Hin.
  - exists []. split; reflexivity.
  - assert (Hk : Dict.mem k (alerts s) = true) by (apply (Hin k a); now left).
    assert (Hrest : forall k' a', In (k', a') rest ->
                                  Dict.mem k' (alerts s) = true)
      by (intros; eapply Hin; right; eassumption).
    specialize (IH Hrest). destruct IH as [t' [IHe IHs]].
    destruct (fetch_ltp_eq w (exchange a) (token a) s) as [ls E].
    cbn [check_loop scan].
    destruct (fetched (get_quotes w (exchange a) (token a))) as [[p|]|e].
    + rewrite (bind_return _ _ _ _ _ _ E). unfold crosses.
      destruct (String.eqb_spec (direction a) "above") as [Ha|Ha];
        cbn [andb orb].
      * destruct (Float.gt p (target_price a)); cbn [orb].
        -- destruct (send_then_del w k a p s Hk) as [t [Et St]].
           unfold alert_message at 1 in Et. rewrite Ha in Et at 1.
           rewrite Et. cbn [outcome_of state_of trace_of fst snd].
           eexists; split; [reflexivity|].
           cbn. now rewrite sends_app, sends_logs.
        -- destruct (String.eqb_spec (direction a) "below") as [Hb|Hb];
             [rewrite Ha in Hb; discriminate|].
           cbn [andb]. rewrite IHe.
           cbn [outcome_of state_of trace_of fst snd].
           eexists; split; [reflexivity|].
           cbn. now rewrite sends_app, sends_logs.
      * destruct (String.eqb_spec (direction a) "below") as [Hb|Hb];
          cbn [andb].
        -- destruct (Float.lt p (target_price a)).
           ++ destruct (send_then_del w k a p s Hk) as [t [Et St]].
              unfold alert_message at 1 in Et. rewrite Hb in Et at 1.
              rewrite Et. cbn [outcome_of state_of trace_of fst snd].
              eexists; split; [reflexivity|].
              cbn. now rewrite sends_app, sends_logs.
           ++ rewrite IHe. cbn [outcome_of state_of trace_of fst snd].
              eexists; split; [reflexivity|].
              cbn. now rewrite sends_app, sends_logs.
        -- rewrite IHe. cbn [outcome_of state_of trace_of fst snd].
           eexists; split; [reflexivity|].
           cbn. now rewrite sends_app, sends_logs.
    + rewrite (bind_return _ _ _ _ _ _ E), IHe.
      cbn [outcome_of state_of trace_of fst snd].
      eexists; split; [reflexivity|].
      cbn. now rewrite sends_app, sends_logs.
    + rewrite (bind_raise _ _ _ _ _ _ E).
      eexists; split; [reflexivity|].
      cbn. now rewrite sends_logs.
Qed.

End LoopFacts.

(** ** What a pass does to the registry *)

Section PassFacts.
Context {V : Type} {FV : Floatable V}.
Implicit Types (w : world V) (s : bot) (items : list (string * alert)).

Lemma check_alerts_scan w s :
  exists t,
    check_alerts w s =
    (verdict_outcome w s (scan w (alerts s)),
     verdict_state w s (scan w (alerts s)), t)
    /\ sends t = verdict_sends (scan w (alerts s)).
Proof.
  destruct (check_loop_scan w (alerts s) s) as [t [E S]].
  - intros k a H. exact (DictFacts.In_mem _ _ _ H).
  - exists t. split; [|exact S].
    unfold check_alerts, bind, get_state, Dict.items. now rewrite E.
Qed.

(** An alert that fires is one of the items, its quote gave the price, and
    the price crosses. *)
Lemma scan_fired w items k a p :
  scan w items = Fired k a p ->
  In (k, a) items
  /\ fetched (get_quotes w (exchange a) (token a)) = Return (Some p)
  /\ crosses a p = true.
Proof.
  induction items as [|[k' a'] rest IH]; cbn [scan]; [discriminate|].
  destruct (fetched (get_quotes w (exchange a') (token a')))
    as [[p'|]|e] eqn:F.
  - destruct (crosses a' p') eqn:C.
    + intros H. injection H as <- <- <-. repeat split; auto. now left.
    + intros H. destruct (IH H) as [I R]. split; [now right | exact R].
  - intros H. destruct (IH H) as [I R]. split; [now right | exact R].
  - discriminate.
Qed.

(** Items the pass skips or finds below their threshold do not count. *)
Lemma scan_app_quiet w pre items :
  scan w pre = Quiet -> scan w (pre ++ items) = scan w items.
Proof.
  induction pre as [|[k a] pre IH]; cbn [scan app]; [reflexivity|].
  destruct (fetched (get_quotes w (exchange a) (token a))) as [[p|]|e];
    try discriminate; auto.
  destruct (crosses a p); [discriminate | auto].
Qed.

(** A pass sends at most one message. *)
Lemma check_alerts_at_most_one_send w s :
  (List.length (sends (trace_of (check_alerts w s))) <= 1)%nat.
Proof.
  destruct (check_alerts_scan w s) as [t [E S]].
  rewrite E. cbn [trace_of snd]. rewrite S.
  destruct (scan w (alerts s)); cbn; lia.
Qed.

(** The registry after a pass is the one before, or the one before less one
    key. *)
Lemma check_alerts_alerts w s :
  alerts (state_of (check_alerts w s)) = alerts s
  \/ exists k, alerts (state_of (check_alerts w s)) = Dict.del k (alerts s).
Proof.
  destruct (check_alerts_scan w s) as [t [E _]].
  rewrite E. cbn [state_of fst snd].
  destruct (scan w (alerts s)) as [|e|k a p]; cbn [verdict_state]; auto.
  destruct (handled _); cbn; eauto.
Qed.

Lemma check_alerts_wf w s :
  Dict.wf (alerts s) -> Dict.wf (alerts (state_of (check_alerts w s))).
Proof.
  intros H. destruct (check_alerts_alerts w s) as [E|[k E]]; rewrite E.
  - exact H.
  - now apply DictFacts.wf_del.
Qed.

(** A key that is not in the registry stays out and is not notified. *)
Lemma check_alerts_absent w s k :
  Dict.mem k (alerts s) = false ->
  ~ In k (notified (trace_of (check_alerts w s)))
  /\ Dict.mem k (alerts (state_of (check_alerts w s))) = false.
Proof.
  intros H. split.
  - destruct (check_alerts_scan w s) as [t [E S]].
    rewrite E. cbn [trace_of snd]. unfold notified. rewrite S.
    destruct (scan w (alerts s)) as [|e|k' a p] eqn:Sc; cbn; try tauto.
    intros [<-|[]]. apply scan_fired in Sc as [I _].
    apply DictFacts.In_mem in I. congruence.
  - destruct (check_alerts_alerts w s) as [E|[k' E]]; rewrite E.
    + exact H.
    + now apply DictFacts.mem_del_absent.
Qed.

(** An alert that does not fire in a pass is not notified and keeps its
    place in the registry. *)
Lemma alert_kept w s k a :
  Dict.wf (alerts s) ->
  Dict.get k (alerts s) = Some a ->
  (forall p, scan w (alerts s) <> Fired k a p) ->
  ~ In k (notified (trace_of (check_alerts w s)))
  /\ Dict.get k (alerts (state_of (check_alerts w s))) = Some a.
Proof.
  intros Hwf Hget Hno.
  destruct (check_alerts_scan w s) as [t [E S]].
  rewrite E. cbn [trace_of state_of fst snd]. unfold notified. rewrite S.
  destruct (scan w (alerts s)) as [|e|k' a' p'] eqn:Sc;
    cbn [verdict_sends verdict_state map In]; try tauto.
  assert (N : k' <> k).
  { intros ->. apply scan_fired in Sc as [I _].
    rewrite (DictFacts.In_get _ _ _ Hwf I) in Hget.
    injection Hget as ->. now apply (Hno p'). }
  split; [intros [Q|[]]; auto|].
  destruct (handled _); cbn [alerts set_alerts]; [|exact Hget].
  now rewrite (DictFacts.get_del_other _ _ _ N).
Qed.

(** A pass is only interrupted by an exception of the quote source that is
    not an [Exception]. *)
Lemma scan_stopped w items e :
  scan w items = Stopped e ->
  is_Exception e = false
  /\ exists ex tok, get_quotes w ex tok = Raise e.
Proof.
  induction items as [|[k a] rest IH]; cbn [scan]; [discriminate|].
  unfold fetched at 1.
  destruct (get_quotes w (exchange a) (token a)) as [q|e'] eqn:G.
  - destruct (price_of_quote q) as [p|]; [|exact IH].
    destruct (crosses a p); [discriminate | exact IH].
  - destruct (is_Exception e') eqn:X; [exact IH|].
    intros H. injection H as <-. eauto.
Qed.

Lemma crosses_malformed (a : alert) (p : float) :
  direction a <> "above" -> direction a <> "below" -> crosses a p = false.
Proof.
  intros Ha Hb. unfold crosses.
  destruct (String.eqb_spec (direction a) "above"); [contradiction|].
  destruct (String.eqb_spec (direction a) "below"); [contradiction|].
  reflexivity.
Qed.

(** A quote that parses to NaN crosses no threshold. *)
Lemma nan_never_crosses (a : alert) : crosses a Float.nan = false.
Proof.
  unfold crosses, Float.gt, Float.lt, Float.nan, SFltb.
  destruct (target_price a) as [[]|[]| |[] m e]; cbn;
    now rewrite !andb_false_r.
Qed.

Lemma add_alert_eq k ex tok p d s :
  add_alert k ex tok p d s =
  (Return tt, set_alerts (Dict.set k (mkAlert ex tok p d) (alerts s)) s,
   [Log (InfoAdded k d p)]).
Proof. reflexivity. Qed.

Lemma step_wf (o : op V) s :
  Dict.wf (alerts s) -> Dict.wf (alerts (state_of (step o s))).
Proof.
  destruct o as [k e t p d|w]; cbn [step].
  - rewrite add_alert_eq. cbn. apply DictFacts.wf_set.
  - apply check_alerts_wf.
Qed.

Lemma exec_wf (ops : list (op V)) s :
  Dict.wf (alerts s) -> Dict.wf (alerts (exec ops s)).
Proof.
  revert s. induction ops as [|o ops IH]; intros s H; cbn [exec]; auto.
  apply IH, step_wf, H.
Qed.

End PassFacts.

(** ** The polling loop *)

Section PollFacts.
Context {V : Type} {FV : Floatable V}.
Implicit Types (w : world V) (ws : list (world V)) (s : bot).

(** One turn of the [while] loop, then the rest of it. *)
Lemma poll_cons w ws s :
  poll (w :: ws) s =
  let c := (if negb (Dict.truthy (alerts s))
            then logging InfoNoAlerts
            else check_alerts w) s in
  match outcome_of c with
  | Return _ =>
      if (poll_interval s <? 0)%Z then
        (Raise ValueError, state_of c, trace_of c ++ [Sleep (poll_interval s)])
      else
        let r := poll ws (state_of c) in
        (outcome_of r, state_of r,
         trace_of c ++ Sleep (poll_interval s) :: trace_of r)
  | Raise e => (Raise e, state_of c, trace_of c)
  end.
Proof.
  cbn [poll]. unfold bind at 1. unfold get_state at 1. cbn zeta.
  unfold bind at 1.
  destruct ((if negb (Dict.truthy (alerts s))
             then logging InfoNoAlerts else check_alerts w) s)
    as [[[[]|e] s1] t1]; cbn [outcome_of state_of trace_of fst snd].
  - unfold bind, sleep, call. destruct (poll_interval s <? 0)%Z.
    + reflexivity.
    + destruct (poll ws s1) as [[o2 s2] t2]. reflexivity.
  - reflexivity.
Qed.

Lemma poll_absent ws s k :
  Dict.mem k (alerts s) = false ->
  ~ In k (notified (trace_of (poll ws s)))
  /\ Dict.mem k (alerts (state_of (poll ws s))) = false.
Proof.
  revert s. induction ws as [|w ws IH]; intros s H.
  - cbn. tauto.
  - rewrite poll_cons. cbn zeta.
    assert (C : ~ In k (notified (trace_of
                  ((if negb (Dict.truthy (alerts s))
                    then logging InfoNoAlerts else check_alerts w) s)))
                /\ Dict.mem k (alerts (state_of
                  ((if negb (Dict.truthy (alerts s))
                    then logging InfoNoAlerts else check_alerts w) s)))
                   = false).
    { destruct (negb (Dict.truthy (alerts s))).
      - cbn. tauto.
      - now apply check_alerts_absent. }
    destruct C as [Cn Cm].
    destruct (outcome_of _) as [[]|e].
    + destruct (poll_interval s <? 0)%Z.
      * cbn [outcome_of state_of trace_of fst snd]. split; [|exact Cm].
        rewrite notified_app. intros I. apply in_app_or in I as [I|I]; tauto.
      * destruct (IH _ Cm) as [In' Im'].
        cbn [outcome_of state_of trace_of fst snd]. split; [|exact Im'].
        rewrite notified_app. intros I. apply in_app_or in I as [I|I]; tauto.
    + cbn [outcome_of state_of trace_of fst snd]. tauto.
Qed.

End PollFacts.

(** * The claims *)

Section Claims.
Context {V : Type} {FV : Floatable V}.
Implicit Types (w : world V) (ws : list (world V)) (s : bot).

(** C2. Direction correctness.  When a pass reaches the alert [a] of key [k]
    (no alert before it fired or interrupted the pass) and the quote source
    gives the price [p]: an ['above'] alert is notified exactly when
    [p > target_price]; a ['below'] alert exactly when [p < target_price];
    and when [p == target_price] the alert is not notified and stays in the
    registry, whatever its direction. *)
Theorem direction_is_strict w s pre k a post p :
  Dict.wf (alerts s) ->
  alerts s = pre ++ (k, a) :: post ->
  scan w pre = Quiet ->
  fetched (get_quotes w (exchange a) (token a)) = Return (Some p) ->
  let r := check_alerts w s in
  (direction a = "above" ->
     (In k (notified (trace_of r)) <-> Float.gt p (target_price a) = true))
  /\ (direction a = "below" ->
     (In k (notified (trace_of r)) <-> Float.lt p (target_price a) = true))
  /\ (Float.eqb p (target_price a) = true ->
     ~ In k (notified (trace_of r))
     /\ Dict.mem k (alerts (state_of r)) = true).
Proof.
  intros Hwf Hal Hpre Hf r.
  assert (Hpost : ~ In k (Dict.keys post)).
  { unfold Dict.wf, Dict.keys in Hwf. rewrite Hal, map_app in Hwf.
    apply NoDup_remove_2 in Hwf. intros I. apply Hwf, in_or_app. now right. }
  assert (Hmem : Dict.mem k (alerts s) = true).
  { apply (DictFacts.In_mem k a). rewrite Hal. apply in_or_app.
    right. now left. }
  assert (Hscan : scan w (alerts s) =
                  if crosses a p then Fired k a p else scan w post).
  { rewrite Hal, (scan_app_quiet _ _ _ Hpre). cbn [scan]. now rewrite Hf. }
  assert (Hnot : crosses a p = false -> ~ In k (notified (trace_of r))
                 /\ Dict.mem k (alerts (state_of r)) = true).
  { intros C. rewrite C in Hscan. subst r.
    destruct (check_alerts_scan w s) as [t [E S]]. rewrite E, Hscan.
    cbn [trace_of state_of fst snd]. unfold notified. rewrite S, Hscan.
    destruct (scan w post) as [|e|k' a' p'] eqn:Sp;
      cbn [verdict_sends verdict_state map In]; try tauto.
    apply scan_fired in Sp as [I _].
    assert (N : k' <> k).
    { intros ->. apply Hpost. unfold Dict.keys.
      change k with (fst (k, a')). now apply in_map. }
    split; [intros [Q|[]]; auto|].
    destruct (handled _); cbn [alerts set_alerts]; [|exact Hmem].
    now rewrite (DictFacts.mem_del_other _ _ _ N). }
  assert (Hyes : crosses a p = true -> In k (notified (trace_of r))).
  { intros C. rewrite C in Hscan. subst r.
    destruct (check_alerts_scan w s) as [t [E S]]. rewrite E.
    cbn [trace_of snd]. unfold notified. rewrite S, Hscan. now left. }
  repeat split.
  - intros I. destruct (Float.gt p (target_price a)) eqn:G; [reflexivity|].
    exfalso. apply Hnot; [|exact I]. unfold crosses. rewrite H, G. reflexivity.
  - intros G. apply Hyes. unfold crosses. rewrite H, G. reflexivity.
  - intros I. destruct (Float.lt p (target_price a)) eqn:G; [reflexivity|].
    exfalso. apply Hnot; [|exact I]. unfold crosses. rewrite H, G. reflexivity.
  - intros G. apply Hyes. unfold crosses. rewrite H, G. reflexivity.
  - apply Hnot. unfold crosses.
    rewrite (FloatFacts.eqb_not_gt _ _ H), (FloatFacts.eqb_not_lt _ _ H).
    now rewrite !andb_false_r.
  - apply Hnot. unfold crosses.
    rewrite (FloatFacts.eqb_not_gt _ _ H), (FloatFacts.eqb_not_lt _ _ H).
    now rewrite !andb_false_r.
Qed.

(** C3. Uniqueness.  Whatever operations were run on a fresh bot, no key has
    more than one alert; and two [add_alert] calls for one key leave exactly
    one alert for it, the one of the second call. *)
Theorem one_alert_per_key (ops : list (op V)) (chat : string) (poll : Z) :
  let s := exec ops (init chat poll) in
  Dict.wf (alerts s)
  /\ (forall k, (List.length (Dict.bindings k (alerts s)) <= 1)%nat)
  /\ (forall k e1 t1 p1 d1 e2 t2 p2 d2,
        Dict.bindings k
          (alerts (exec [OpAdd k e1 t1 p1 d1; OpAdd k e2 t2 p2 d2] s))
        = [mkAlert e2 t2 p2 d2]).
Proof.
  intros s.
  assert (Hwf : Dict.wf (alerts s)).
  { apply exec_wf. unfold Dict.wf. cbn. constructor. }
  split; [exact Hwf|]. split.
  - intros k. now apply DictFacts.bindings_at_most_one.
  - intros. cbn [exec step]. rewrite !add_alert_eq.
    cbn [state_of fst snd alerts set_alerts].
    rewrite DictFacts.bindings_get.
    + now rewrite DictFacts.get_set_same.
    + now apply DictFacts.wf_set, DictFacts.wf_set.
Qed.

(** C7. No login, no polling.  When the login at the start of [run] is
    refused, [run] logs that it cannot start and returns at once: the only
    call is the login itself, no quote is fetched, no message is sent, no
    pass is run and the registry is as it was.  When the login raises, [run]
    raises at once in the same way. *)
Theorem run_without_login_does_nothing ws s :
  let r := run (Return None) ws s in
  r = (Return tt, set_logged_in false s,
       [ApiLogin; Log ErrorLoginFailed; Log ErrorCannotStart])
  /\ fetches (trace_of r) = []
  /\ sends (trace_of r) = []
  /\ alerts (state_of r) = alerts s
  /\ forall e, run (Raise e) ws s = (Raise e, s, [ApiLogin]).
Proof. repeat split. Qed.

(** C10. Price extraction.  For a quote the source returns, [fetch_ltp]
    returns the price of the quote in the specification's words
    ([price_of_quote]); spelled out: with an ['lp'] field it returns
    [float] of that field, also when ['ltp'] is there, and [None] when that
    does not parse; without ['lp'] it does the same with ['ltp']; and it
    returns [None] for a missing or empty response or one with neither
    field. *)
Theorem fetch_ltp_prefers_lp w ex tok s q :
  get_quotes w ex tok = Return q ->
  let r := outcome_of (fetch_ltp w ex tok s) in
  r = Return (price_of_quote q)
  /\ (forall d v, q = Some d -> Dict.get "lp" d = Some v ->
        r = Return (py_float v))
  /\ (forall d v, q = Some d -> Dict.get "lp" d = None ->
        Dict.get "ltp" d = Some v -> r = Return (py_float v))
  /\ (forall d, q = Some d -> Dict.get "lp" d = None ->
        Dict.get "ltp" d = None -> r = Return None)
  /\ (q = None \/ q = Some [] -> r = Return None).
Proof.
  intros Hq r.
  assert (Hr : r = Return (price_of_quote q)).
  { subst r. destruct (fetch_ltp_eq w ex tok s) as [ls E].
    rewrite E, Hq. reflexivity. }
  split; [exact Hr|]. rewrite Hr. repeat split.
  - intros d v -> H. cbn. now rewrite H.
  - intros d v -> H1 H2. cbn. now rewrite H1, H2.
  - intros d -> H1 H2. cbn. now rewrite H1, H2.
  - intros [-> | ->]; reflexivity.
Qed.

(** C8, as the code has it.  [add_alert] validates nothing: whatever the
    direction string, the call returns normally and the alert is stored as
    given.  A direction other than ['above'] and ['below'] is first met by
    the evaluation, where such an alert is never notified and stays in the
    registry. *)
Theorem add_alert_stores_any_direction w s k ex tok p d :
  let a := mkAlert ex tok p d in
  let s' := state_of (add_alert k ex tok p d s) in
  outcome_of (add_alert k ex tok p d s) = Return tt
  /\ Dict.get k (alerts s') = Some a
  /\ (Dict.wf (alerts s) -> d <> "above" -> d <> "below" ->
      ~ In k (notified (trace_of (check_alerts w s')))
      /\ Dict.get k (alerts (state_of (check_alerts w s'))) = Some a).
Proof.
  intros a s'. subst s'. rewrite add_alert_eq.
  cbn [outcome_of state_of fst snd].
  split; [reflexivity|]. split.
  - cbn. apply DictFacts.get_set_same.
  - intros Hwf Ha Hb. apply alert_kept.
    + cbn. now apply DictFacts.wf_set.
    + cbn. apply DictFacts.get_set_same.
    + intros p' Sc. apply scan_fired in Sc as [_ [_ C]].
      now rewrite crosses_malformed in C.
Qed.


End Claims.

(** * The claims on concrete runs *)

Ltac run_it := vm_compute; repeat split; auto; try discriminate.

Ltac wf_it := unfold Dict.wf; cbn; repeat constructor; cbn; intuition discriminate.

(** The direction tests of the specification. *)
Example above_100_at_100 :
  notified (trace_of (check_alerts (world_quoting "100.0")
                        (single_bot "X" alert_above_100))) = [].
Proof. reflexivity. Qed.

Example above_100_at_100_01 :
  notified (trace_of (check_alerts (world_quoting "100.01")
                        (single_bot "X" alert_above_100))) = ["X"].
Proof. reflexivity. Qed.

Example below_100_at_99_99 :
  notified (trace_of (check_alerts (world_quoting "99.99")
                        (single_bot "X" alert_below_100))) = ["X"].
Proof. reflexivity. Qed.

Example below_100_at_100 :
  notified (trace_of (check_alerts (world_quoting "100.0")
                        (single_bot "X" alert_below_100))) = [].
Proof. reflexivity. Qed.

(** C1. Full-cycle processing fails on the code.  The registry of the
    script holds two alerts, both quotes arrive and both prices cross; one
    pass fetches the first quote only, notifies RELIANCE-EQ, removes it and
    stops: TCS-EQ is neither evaluated nor removed. *)
Theorem check_alerts_stops_at_first_trigger :
  let w := world_both_cross in
  let r := check_alerts w main_bot in
  forallb (fun ka =>
             match fetched (get_quotes w (exchange (snd ka)) (token (snd ka)))
             with
             | Return (Some p) => crosses (snd ka) p
             | _ => false
             end) (alerts main_bot) = true
  /\ Dict.keys (alerts main_bot) = ["RELIANCE-EQ"; "TCS-EQ"]
  /\ outcome_of r = Return tt
  /\ fetches (trace_of r) = [("NSE", "22")]
  /\ notified (trace_of r) = ["RELIANCE-EQ"]
  /\ Dict.keys (alerts (state_of r)) = ["TCS-EQ"].
Proof. run_it. Qed.

(** C6. Isolation fails on the code when two other alerts cross.  The quote
    request of INFY-EQ fails: the alert is skipped and kept.  RELIANCE-EQ is
    then evaluated, notified and removed, and the pass stops there: TCS-EQ,
    whose price crosses too, is not evaluated. *)
Theorem failed_fetch_then_first_trigger_stops :
  let w := world_first_fetch_fails in
  let r := check_alerts w three_bot in
  Dict.keys (alerts three_bot) = ["INFY-EQ"; "RELIANCE-EQ"; "TCS-EQ"]
  /\ get_quotes w "NSE" "11" = Raise OtherException
  /\ match Dict.get "TCS-EQ" (alerts three_bot) with
     | Some a =>
         match fetched (get_quotes w (exchange a) (token a)) with
         | Return (Some p) => crosses a p
         | _ => false
         end
     | None => false
     end = true
  /\ outcome_of r = Return tt
  /\ fetches (trace_of r) = [("NSE", "11"); ("NSE", "22")]
  /\ notified (trace_of r) = ["RELIANCE-EQ"]
  /\ Dict.keys (alerts (state_of r)) = ["INFY-EQ"; "TCS-EQ"].
Proof. run_it. Qed.

(** C8 against the code: a direction outside the two values is accepted and
    stored. *)
Lemma add_alert_accepts_malformed_direction :
  let r := add_alert "X" "NSE" "1" (Float.of_decimal 1000 1) "sideways"
             (init "chat" 30) in
  outcome_of r = Return tt
  /\ Dict.get "X" (alerts (state_of r))
     = Some (mkAlert "NSE" "1" (Float.of_decimal 1000 1) "sideways").
Proof. run_it. Qed.


(** ** Instances of the theorems *)

Lemma direction_is_strict_witness :
  let w := world_quoting "100.01" in
  let s := single_bot "X" alert_above_100 in
  Dict.wf (alerts s)
  /\ fetched (get_quotes w "NSE" "1")
     = Return (Some (Float.of_decimal 10001 2))
  /\ In "X" (notified (trace_of (check_alerts w s))).
Proof.
  intros w s.
  assert (Hwf : Dict.wf (alerts s)) by wf_it.
  assert (Hf : fetched (get_quotes w (exchange alert_above_100)
                          (token alert_above_100))
               = Return (Some (Float.of_decimal 10001 2)))
    by (vm_compute; reflexivity).
  split; [exact Hwf|]. split; [exact Hf|].
  destruct (direction_is_strict w s [] "X" alert_above_100 []
              (Float.of_decimal 10001 2) Hwf eq_refl eq_refl Hf)
    as [A _].
  apply A; vm_compute; reflexivity.
Defined.

Lemma fetch_ltp_prefers_lp_witness :
  let w := world_two_fields in
  get_quotes w "NSE" "22" = Return (Some [("ltp", "1.0"); ("lp", "2501.0")])
  /\ outcome_of (fetch_ltp w "NSE" "22" main_bot)
     = Return (py_float "2501.0").
Proof.
  intros w. split; [reflexivity|].
  destruct (fetch_ltp_prefers_lp w "NSE" "22" main_bot _ eq_refl)
    as [_ [L _]].
  exact (L _ "2501.0" eq_refl eq_refl).
Defined.

Lemma add_alert_stores_any_direction_witness :
  let w := world_quoting "100.01" in
  let s := init "chat" 30 in
  let p := Float.of_decimal 1000 1 in
  let s' := state_of (add_alert "X" "NSE" "1" p "sideways" s) in
  Dict.wf (alerts s)
  /\ "sideways" <> "above"
  /\ "sideways" <> "below"
  /\ ~ In "X" (notified (trace_of (check_alerts w s')))
  /\ Dict.get "X" (alerts (state_of (check_alerts w s')))
     = Some (mkAlert "NSE" "1" p "sideways").
Proof.
  intros w s p s'.
  assert (Hwf : Dict.wf (alerts s)) by wf_it.
  assert (Ha : "sideways" <> "above") by discriminate.
  assert (Hb : "sideways" <> "below") by discriminate.
  destruct (add_alert_stores_any_direction w s "X" "NSE" "1" p "sideways")
    as [_ [_ K]].
  destruct (K Hwf Ha Hb) as [N G].
  split; [exact Hwf|]. split; [exact Ha|]. split; [exact Hb|].
  split; [exact N | exact G].
Defined.

(** * Further properties of the code *)

(** ** Calls in a trace *)

Lemma unlogged_app (t1 t2 : list event) :
  unlogged (t1 ++ t2) = unlogged t1 ++ unlogged t2.
Proof. apply filter_app. Qed.

Lemma unlogged_logs (ls : list log_line) : unlogged (map Log ls) = [].
Proof. induction ls; cbn; auto. Qed.

Lemma sends_unlogged (t : list event) : sends (unlogged t) = sends t.
Proof.
  unfold unlogged. induction t as [|[] t IH]; cbn; congruence.
Qed.

Lemma fetches_unlogged (t : list event) : fetches (unlogged t) = fetches t.
Proof.
  unfold unlogged. induction t as [|[] t IH]; cbn; congruence.
Qed.

Lemma send_chats_unlogged (t : list event) :
  send_chats (unlogged t) = send_chats t.
Proof.
  unfold unlogged. induction t as [|[] t IH]; cbn; congruence.
Qed.

Lemma sleeps_unlogged (t : list event) : sleeps (unlogged t) = sleeps t.
Proof.
  unfold unlogged. induction t as [|[] t IH]; cbn; congruence.
Qed.

Lemma fetches_app (t1 t2 : list event) :
  fetches (t1 ++ t2) = fetches t1 ++ fetches t2.
Proof.
  induction t1 as [|ev t1 IH]; cbn; [reflexivity|].
  destruct ev; cbn; rewrite ?IH; reflexivity.
Qed.

Lemma send_chats_app (t1 t2 : list event) :
  send_chats (t1 ++ t2) = send_chats t1 ++ send_chats t2.
Proof.
  induction t1 as [|ev t1 IH]; cbn; [reflexivity|].
  destruct ev; cbn; rewrite ?IH; reflexivity.
Qed.

Lemma sleeps_app (t1 t2 : list event) :
  sleeps (t1 ++ t2) = sleeps t1 ++ sleeps t2.
Proof.
  induction t1 as [|ev t1 IH]; cbn; [reflexivity|].
  destruct ev; cbn; rewrite ?IH; reflexivity.
Qed.

Lemma fetches_requests (items : list (string * alert)) :
  fetches (map quote_request items)
  = map (fun ka => (exchange (snd ka), token (snd ka))) items.
Proof. induction items as [|ka items IH]; cbn; [|rewrite IH]; reflexivity. Qed.

Lemma fetches_sends (c : string) (ms : list message) :
  fetches (map (TelegramSend c) ms) = [].
Proof. induction ms; cbn; auto. Qed.

Lemma sends_requests (items : list (string * alert)) :
  sends (map quote_request items) = [].
Proof. induction items; cbn; auto. Qed.

Lemma send_chats_requests (items : list (string * alert)) :
  send_chats (map quote_request items) = [].
Proof. induction items; cbn; auto. Qed.

Lemma sleeps_requests (items : list (string * alert)) :
  sleeps (map quote_request items) = [].
Proof. induction items; cbn; auto. Qed.

Lemma sleeps_sends (c : string) (ms : list message) :
  sleeps (map (TelegramSend c) ms) = [].
Proof. induction ms; cbn; auto. Qed.

(** ** The calls of a pass *)

Section CallsFacts.
Context {V : Type} {FV : Floatable V}.
Implicit Types (w : world V) (s : bot) (items : list (string * alert)).

Lemma send_then_del_calls w k a p s :
  Dict.mem k (alerts s) = true ->
  unlogged (trace_of
    ((send_telegram_alert w (alert_message k a p) ;; del_alert k) s))
  = [TelegramSend (chat_id s) (alert_message k a p)].
Proof.
  intros Hk.
  destruct (send_telegram_alert_eq w (alert_message k a p) s) as [ls E].
  destruct (handled (send_message w (chat_id s) (alert_message k a p)))
    as [[]|e] eqn:Hh.
  - rewrite (bind_return _ _ _ _ _ _ E), (del_alert_eq _ _ Hk).
    cbn [trace_of snd]. rewrite app_nil_r. cbn.
    now rewrite unlogged_logs.
  - rewrite (bind_raise _ _ _ _ _ _ E).
    cbn. now rewrite unlogged_logs.
Qed.

(** The calls [check_loop] makes are those of [calls], in that order. *)
Lemma check_loop_calls w items s :
  (forall k a, In (k, a) items -> Dict.mem k (alerts s) = true) ->
  unlogged (trace_of (check_loop w items s)) = calls w (chat_id s) items.
Proof.
  unfold calls.
  induction items as [|[k a] rest IH]; intros Hin; [reflexivity|].
  assert (Hk : Dict.mem k (alerts s) = true) by (apply (Hin k a); now left).
  assert (Hrest : forall k' a', In (k', a') rest ->
                                Dict.mem k' (alerts s) = true)
    by (intros; eapply Hin; right; eassumption).
  specialize (IH Hrest).
  destruct (fetch_ltp_eq w (exchange a) (token a) s) as [ls E].
  cbn [check_loop scan visited].
  destruct (fetched (get_quotes w (exchange a) (token a))) as [[p|]|e].
  - rewrite (bind_return _ _ _ _ _ _ E). cbn [trace_of snd].
    rewrite unlogged_app. cbn [unlogged filter is_call].
    fold (unlogged (map Log ls)). rewrite unlogged_logs.
    cbn [app map quote_request snd]. f_equal.
    unfold crosses.
    destruct (String.eqb_spec (direction a) "above") as [Ha|Ha];
      cbn [andb orb].
    + destruct (Float.gt p (target_price a)); cbn [orb].
      * pose proof (send_then_del_calls w k a p s Hk) as C.
        unfold alert_message at 1 in C. rewrite Ha in C at 1.
        rewrite C. reflexivity.
      * destruct (String.eqb_spec (direction a) "below") as [Hb|Hb];
          [rewrite Ha in Hb; discriminate|].
        cbn [andb]. exact IH.
    + destruct (String.eqb_spec (direction a) "below") as [Hb|Hb];
        cbn [andb].
      * destruct (Float.lt p (target_price a)).
        -- pose proof (send_then_del_calls w k a p s Hk) as C.
           unfold alert_message at 1 in C. rewrite Hb in C at 1.
           rewrite C. reflexivity.
        -- exact IH.
      * exact IH.
  - rewrite (bind_return _ _ _ _ _ _ E). cbn [trace_of snd].
    rewrite unlogged_app. cbn [unlogged filter is_call].
    fold (unlogged (map Log ls)). rewrite unlogged_logs.
    cbn [app map quote_request snd]. f_equal. exact IH.
  - rewrite (bind_raise _ _ _ _ _ _ E). cbn [trace_of snd].
    cbn [unlogged filter is_call].
    fold (unlogged (map Log ls)). rewrite unlogged_logs. reflexivity.
Qed.

Lemma check_alerts_calls w s :
  unlogged (trace_of (check_alerts w s)) = calls w (chat_id s) (alerts s).
Proof.
  rewrite <- (check_loop_calls w (alerts s) s).
  - unfold check_alerts, bind, get_state, Dict.items.
    destruct (check_loop w (alerts s) s) as [[o s'] t]. reflexivity.
  - intros k a H. exact (DictFacts.In_mem _ _ _ H).
Qed.

(** The visited items are a prefix of the items; they are all of them when
    nothing fired, and they end with the alert that fired. *)
Lemma visited_prefix w items :
  exists post, items = visited w items ++ post
  /\ (scan w items = Quiet -> post = [])
  /\ (forall k a p, scan w items = Fired k a p ->
        exists pre, visited w items = pre ++ [(k, a)]).
Proof.
  induction items as [|[k a] rest IH]; cbn [visited scan].
  - exists []. repeat split; [discriminate].
  - destruct IH as [post [E [Q F]]].
    destruct (fetched (get_quotes w (exchange a) (token a))) as [[p|]|e].
    + destruct (crosses a p).
      * exists rest. repeat split; [discriminate|].
        intros k' a' p' H. injection H as <- <- <-. now exists [].
      * exists post. cbn. repeat split; [congruence | exact Q |].
        intros k' a' p' H. destruct (F _ _ _ H) as [pre Hp].
        exists ((k, a) :: pre). cbn. congruence.
    + exists post. cbn. repeat split; [congruence | exact Q |].
      intros k' a' p' H. destruct (F _ _ _ H) as [pre Hp].
      exists ((k, a) :: pre). cbn. congruence.
    + exists rest. repeat split; discriminate.
Qed.

End CallsFacts.

(** ** More on dictionaries *)

Module DictMore.

Section Facts.
Context {V : Type}.
Implicit Types (d : Dict.t V) (k : string) (v : V).

Lemma length_del k d :
  Dict.mem k d = true -> S (List.length (Dict.del k d)) = List.length d.
Proof.
  induction d as [|[k' v'] d IH]; cbn; [discriminate|].
  destruct (String.eqb k k'); cbn; [reflexivity|].
  intros H. now rewrite IH.
Qed.

Lemma In_del k d x : In x (Dict.del k d) -> In x d.
Proof.
  induction d as [|[k' v'] d IH]; cbn; [tauto|].
  destruct (String.eqb k k'); cbn; tauto.
Qed.

Lemma get_set_other k k' v d :
  k' <> k -> Dict.get k' (Dict.set k v d) = Dict.get k' d.
Proof.
  intros N. induction d as [|[k0 v0] d IH]; cbn.
  - destruct (String.eqb_spec k' k); [congruence | reflexivity].
  - destruct (String.eqb_spec k k0) as [->|N0]; cbn.
    + destruct (String.eqb_spec k' k0); [congruence | reflexivity].
    + now rewrite IH.
Qed.

Lemma mem_set_other k k' v d :
  k' <> k -> Dict.mem k' (Dict.set k v d) = Dict.mem k' d.
Proof.
  intros N. induction d as [|[k0 v0] d IH]; cbn.
  - destruct (String.eqb_spec k' k); [congruence | reflexivity].
  - destruct (String.eqb_spec k k0) as [->|N0]; cbn.
    + destruct (String.eqb_spec k' k0); [congruence | reflexivity].
    + now rewrite IH.
Qed.

(** Of two assignments to one key the second alone counts. *)
Lemma set_set k v1 v2 d :
  Dict.set k v2 (Dict.set k v1 d) = Dict.set k v2 d.
Proof.
  induction d as [|[k0 v0] d IH]; cbn.
  - now rewrite String.eqb_refl.
  - destruct (String.eqb_spec k k0) as [->|N]; cbn.
    + now rewrite String.eqb_refl.
    + destruct (String.eqb_spec k k0); [congruence|]. now rewrite IH.
Qed.

End Facts.

End DictMore.

(** ** The pass, seen from outside *)

Section Extras.
Context {V : Type} {FV : Floatable V}.
Implicit Types (w : world V) (ws : list (world V)) (s : bot).

(** X1.  A pass asks for the quotes of a prefix of the registry, in insertion
    order and once each, and its one message, if any, is its last call.  When
    the pass returns without a message it has asked for every alert; a
    message is for the alert asked last. *)
Theorem pass_calls_in_order w s :
  let r := check_alerts w s in
  exists pre post,
    alerts s = pre ++ post
    /\ unlogged (trace_of r)
       = map quote_request pre
         ++ map (TelegramSend (chat_id s)) (sends (trace_of r))
    /\ (sends (trace_of r) = [] -> outcome_of r = Return tt -> post = [])
    /\ (forall m, In m (sends (trace_of r)) ->
          exists pre' a, pre = pre' ++ [(msg_symbol m, a)]).
Proof.
  intros r. subst r.
  destruct (visited_prefix w (alerts s)) as [post [E [Q F]]].
  exists (visited w (alerts s)), post.
  pose proof (check_alerts_calls w s) as C.
  destruct (check_alerts_scan w s) as [t [R S]].
  rewrite R in *. cbn [outcome_of state_of trace_of fst snd] in *.
  rewrite S. split; [exact E|]. split; [exact C|]. split.
  - destruct (scan w (alerts s)) as [|e|k a p]; cbn; auto; discriminate.
  - intros m Hm.
    destruct (scan w (alerts s)) as [|e|k a p]; cbn in Hm; try tauto.
    destruct Hm as [<-|[]]. destruct (F k a p eq_refl) as [pre' Hp].
    now exists pre', a.
Qed.

(** X2.  A pass sends at most one message, and when it returns it has removed as
    many alerts as it has sent messages. *)
Theorem pass_removes_what_it_sends w s :
  let r := check_alerts w s in
  (List.length (sends (trace_of r)) <= 1)%nat
  /\ (List.length (alerts (state_of r)) <= List.length (alerts s))%nat
  /\ match outcome_of r with
     | Return _ =>
         (List.length (alerts (state_of r)) + List.length (sends (trace_of r))
          = List.length (alerts s))%nat
     | Raise _ => alerts (state_of r) = alerts s
     end.
Proof.
  intros r. subst r.
  destruct (check_alerts_scan w s) as [t [R S]].
  rewrite R. cbn [outcome_of state_of trace_of fst snd]. rewrite S.
  destruct (scan w (alerts s)) as [|e|k a p] eqn:Sc;
    cbn [verdict_sends verdict_outcome verdict_state List.length].
  - repeat split; lia.
  - repeat split; lia.
  - apply scan_fired in Sc as [I _]. apply DictFacts.In_mem in I.
    pose proof (DictMore.length_del _ _ I) as L.
    destruct (handled _) as [[]|e]; cbn [alerts set_alerts];
      repeat split; lia.
Qed.

(** X3.  A pass that raises leaves the bot exactly as it was, and what it raises
    is no [TelegramError]. *)
Theorem raising_pass_changes_nothing w s e :
  outcome_of (check_alerts w s) = Raise e ->
  state_of (check_alerts w s) = s /\ is_TelegramError e = false.
Proof.
  destruct (check_alerts_scan w s) as [t [R _]].
  rewrite R. cbn [outcome_of state_of fst snd].
  destruct (scan w (alerts s)) as [|e0|k a p] eqn:Sc;
    cbn [verdict_outcome verdict_state]; [discriminate| |].
  - intros H. injection H as <-. split; [reflexivity|].
    apply scan_stopped in Sc as [X _]. now destruct e0.
  - unfold handled.
    destruct (send_message w (chat_id s) (alert_message k a p)) as [[]|e1];
      [discriminate|].
    destruct (is_TelegramError e1) eqn:T; [discriminate|].
    intros H. injection H as <-. auto.
Qed.

(** Every message a pass sends is true: it names an alert of the registry,
    carries that alert's target and direction and the price the quote source
    gave for it, and that price does cross the target in that direction. *)
Lemma pass_messages_are_true w s m :
  In m (sends (trace_of (check_alerts w s))) ->
  exists a,
    In (msg_symbol m, a) (alerts s)
    /\ fetched (get_quotes w (exchange a) (token a))
       = Return (Some (msg_ltp m))
    /\ msg_target m = target_price a
    /\ msg_word m = direction a
    /\ ((msg_word m = "above"
         /\ Float.gt (msg_ltp m) (msg_target m) = true)
        \/ (msg_word m = "below"
            /\ Float.lt (msg_ltp m) (msg_target m) = true)).
Proof.
  destruct (check_alerts_scan w s) as [t [R S]].
  rewrite R. cbn [trace_of snd]. rewrite S.
  destruct (scan w (alerts s)) as [|e|k a p] eqn:Sc; cbn; try tauto.
  intros [<-|[]]. apply scan_fired in Sc as [I [F C]].
  exists a. cbn. repeat split; auto.
  unfold crosses in C. apply orb_prop in C as [C|C];
    apply andb_prop in C as [D G]; apply String.eqb_eq in D; auto.
Qed.

(** *** One turn of the polling loop *)

(** A turn of the loop is a pass, up to one log line: on an empty registry
    the loop logs instead of calling [check_alerts], which would do
    nothing. *)
Lemma turn_eq w s :
  exists ls,
    (if negb (Dict.truthy (alerts s))
     then logging InfoNoAlerts else check_alerts w) s
    = (outcome_of (check_alerts w s), state_of (check_alerts w s),
       trace_of (check_alerts w s) ++ map Log ls).
Proof.
  destruct (alerts s) as [|b d] eqn:E; cbn [Dict.truthy negb].
  - exists [InfoNoAlerts].
    unfold check_alerts, bind, get_state, Dict.items. rewrite E. reflexivity.
  - exists []. destruct (check_alerts w s) as [[o s'] t]. cbn.
    now rewrite app_nil_r.
Qed.

Lemma poll_step w ws s :
  exists ls,
    poll (w :: ws) s =
    match outcome_of (check_alerts w s) with
    | Return _ =>
        if (poll_interval s <? 0)%Z then
          (Raise ValueError, state_of (check_alerts w s),
           (trace_of (check_alerts w s) ++ map Log ls)
           ++ [Sleep (poll_interval s)])
        else
          let r := poll ws (state_of (check_alerts w s)) in
          (outcome_of r, state_of r,
           (trace_of (check_alerts w s) ++ map Log ls)
           ++ Sleep (poll_interval s) :: trace_of r)
    | Raise e =>
        (Raise e, state_of (check_alerts w s),
         trace_of (check_alerts w s) ++ map Log ls)
    end.
Proof.
  destruct (turn_eq w s) as [ls E]. exists ls.
  rewrite poll_cons. cbn zeta. rewrite E.
  cbn [outcome_of state_of trace_of fst snd]. reflexivity.
Qed.

Lemma check_alerts_fields w s :
  chat_id (state_of (check_alerts w s)) = chat_id s
  /\ poll_interval (state_of (check_alerts w s)) = poll_interval s
  /\ logged_in (state_of (check_alerts w s)) = logged_in s.
Proof.
  destruct (check_alerts_scan w s) as [t [R _]].
  rewrite R. cbn [state_of fst snd].
  destruct (scan w (alerts s)); cbn [verdict_state]; auto.
  destruct (handled _); cbn; auto.
Qed.

Lemma check_alerts_incl w s :
  incl (alerts (state_of (check_alerts w s))) (alerts s).
Proof.
  destruct (check_alerts_alerts w s) as [E|[k E]]; rewrite E.
  - apply incl_refl.
  - intros x. apply DictMore.In_del.
Qed.

(** With a notifier that fails by [TelegramError] only, the alerts a pass
    leaves are those it did not notify. *)
Lemma pass_removed_iff_notified w s k :
  Dict.wf (alerts s) ->
  (forall c m e, send_message w c m = Raise e -> is_TelegramError e = true) ->
  Dict.mem k (alerts (state_of (check_alerts w s))) = true
  <-> Dict.mem k (alerts s) = true
      /\ ~ In k (notified (trace_of (check_alerts w s))).
Proof.
  intros Hwf Hs.
  destruct (check_alerts_scan w s) as [t [R S]].
  rewrite R. cbn [state_of trace_of fst snd]. unfold notified. rewrite S.
  destruct (scan w (alerts s)) as [|e|k' a p];
    cbn [verdict_sends verdict_state map In]; try tauto.
  assert (H : handled (send_message w (chat_id s) (alert_message k' a p))
              = Return tt).
  { unfold handled.
    destruct (send_message w (chat_id s) (alert_message k' a p))
      as [[]|e] eqn:G; [reflexivity|]. now rewrite (Hs _ _ _ G). }
  rewrite H. cbn [alerts set_alerts].
  destruct (string_dec k' k) as [->|N].
  - rewrite (DictFacts.mem_del_same _ _ Hwf). split; [discriminate|].
    intros [_ X]. exfalso. apply X. now left.
  - rewrite (DictFacts.mem_del_other _ _ _ N). split.
    + intros M. split; [exact M|]. intros [Q|[]]. cbn in Q. congruence.
    + tauto.
Qed.

(** *** The whole polling *)

(** Polling only removes alerts and keeps the other fields. *)
Lemma poll_keeps ws s :
  let r := poll ws s in
  incl (alerts (state_of r)) (alerts s)
  /\ chat_id (state_of r) = chat_id s
  /\ poll_interval (state_of r) = poll_interval s
  /\ logged_in (state_of r) = logged_in s.
Proof.
  cbn zeta. revert s.
  induction ws as [|w ws IH]; intros s.
  - cbn. repeat split. apply incl_refl.
  - destruct (poll_step w ws s) as [ls E]. rewrite E.
    destruct (check_alerts_fields w s) as [F1 [F2 F3]].
    pose proof (check_alerts_incl w s) as I.
    destruct (outcome_of (check_alerts w s)) as [[]|e];
      [destruct (poll_interval s <? 0)%Z|];
      cbn [state_of fst snd]; auto.
    destruct (IH (state_of (check_alerts w s))) as [I' [G1 [G2 G3]]].
    repeat split; try congruence.
    eapply incl_tran; eassumption.
Qed.

Lemma poll_wf ws s :
  Dict.wf (alerts s) -> Dict.wf (alerts (state_of (poll ws s))).
Proof.
  revert s. induction ws as [|w ws IH]; intros s Hwf; [exact Hwf|].
  destruct (poll_step w ws s) as [ls E]. rewrite E.
  destruct (outcome_of (check_alerts w s)) as [[]|e];
    [destruct (poll_interval s <? 0)%Z|];
    cbn [state_of fst snd].
  - now apply check_alerts_wf.
  - apply IH. now apply check_alerts_wf.
  - now apply check_alerts_wf.
Qed.

Lemma sends_turn (t1 t2 : list event) (ls : list log_line) (n : Z) :
  sends ((t1 ++ map Log ls) ++ Sleep n :: t2) = sends t1 ++ sends t2.
Proof.
  rewrite !sends_app, sends_logs, app_nil_r. reflexivity.
Qed.

Lemma sends_last_turn (t1 : list event) (ls : list log_line) (n : Z) :
  sends ((t1 ++ map Log ls) ++ [Sleep n]) = sends t1.
Proof. rewrite (sends_turn t1 [] ls n). apply app_nil_r. Qed.

Lemma notified_last_turn (t1 : list event) (ls : list log_line) (n : Z) :
  notified ((t1 ++ map Log ls) ++ [Sleep n]) = notified t1.
Proof. unfold notified. now rewrite sends_last_turn. Qed.

Lemma notified_turn (t1 t2 : list event) (ls : list log_line) (n : Z) :
  notified ((t1 ++ map Log ls) ++ Sleep n :: t2) = notified t1 ++ notified t2.
Proof. unfold notified. now rewrite sends_turn, map_app. Qed.

(** X4.  With a notifier that fails by [TelegramError] only, the alerts the
    polling leaves are exactly those of the start that were never notified:
    an alert is removed if and only if its message was handed to the
    notifier. *)
Theorem polling_removes_exactly_the_notified ws s k :
  Dict.wf (alerts s) ->
  (forall w, In w ws -> forall c m e,
      send_message w c m = Raise e -> is_TelegramError e = true) ->
  Dict.mem k (alerts (state_of (poll ws s))) = true
  <-> Dict.mem k (alerts s) = true
      /\ ~ In k (notified (trace_of (poll ws s))).
Proof.
  revert s. induction ws as [|w ws IH]; intros s Hwf Hs.
  - cbn. tauto.
  - destruct (poll_step w ws s) as [ls E]. rewrite E.
    assert (Hw : forall c m e,
               send_message w c m = Raise e -> is_TelegramError e = true)
      by (apply Hs; now left).
    pose proof (pass_removed_iff_notified w s k Hwf Hw) as P.
    destruct (outcome_of (check_alerts w s)) as [[]|e];
      [destruct (poll_interval s <? 0)%Z|];
      cbn [state_of trace_of fst snd].
    + rewrite notified_last_turn. exact P.
    + rewrite notified_turn.
      rewrite (IH (state_of (check_alerts w s))).
      * rewrite P. split.
        -- intros [[M N1] N2]. split; [exact M|].
           intros I. apply in_app_or in I. tauto.
        -- intros [M N]. repeat split; auto;
             intros I; apply N, in_or_app; auto.
      * now apply check_alerts_wf.
      * intros w' I. apply Hs. now right.
    + rewrite notified_app. unfold notified at 2.
      rewrite sends_logs, app_nil_r. exact P.
Qed.

(** X5.  No false alarm: every message sent during the polling names an alert
    that was in the registry at the start, and carries its target, its
    direction and a price that the quote source of that pass gave and that
    crosses the target in that direction. *)
Theorem polling_messages_are_true ws s m :
  In m (sends (trace_of (poll ws s))) ->
  exists w a,
    In w ws
    /\ In (msg_symbol m, a) (alerts s)
    /\ fetched (get_quotes w (exchange a) (token a))
       = Return (Some (msg_ltp m))
    /\ msg_target m = target_price a
    /\ msg_word m = direction a
    /\ ((msg_word m = "above"
         /\ Float.gt (msg_ltp m) (msg_target m) = true)
        \/ (msg_word m = "below"
            /\ Float.lt (msg_ltp m) (msg_target m) = true)).
Proof.
  revert s. induction ws as [|w ws IH]; intros s; [cbn; tauto|].
  destruct (poll_step w ws s) as [ls E]. rewrite E.
  assert (Here : In m (sends (trace_of (check_alerts w s))) ->
                 exists w0 a, In w0 (w :: ws)
                   /\ In (msg_symbol m, a) (alerts s)
                   /\ fetched (get_quotes w0 (exchange a) (token a))
                      = Return (Some (msg_ltp m))
                   /\ msg_target m = target_price a
                   /\ msg_word m = direction a
                   /\ ((msg_word m = "above"
                        /\ Float.gt (msg_ltp m) (msg_target m) = true)
                       \/ (msg_word m = "below"
                           /\ Float.lt (msg_ltp m) (msg_target m) = true))).
  { intros I. destruct (pass_messages_are_true w s m I) as [a H].
    exists w, a. split; [now left | exact H]. }
  destruct (outcome_of (check_alerts w s)) as [[]|e];
    [destruct (poll_interval s <? 0)%Z|]; cbn [trace_of snd].
  - rewrite sends_last_turn. exact Here.
  - rewrite sends_turn. intros I. apply in_app_or in I as [I|I]; [auto|].
    destruct (IH _ I) as [w0 [a [Iw [Ia H]]]].
    exists w0, a. split; [now right|]. split; [|exact H].
    now apply (check_alerts_incl w s).
  - rewrite sends_app, sends_logs, app_nil_r. exact Here.
Qed.


(** *** [run] *)

(** [run] after a login that succeeded: three events, the polling, and the
    stop line when the polling ended by [KeyboardInterrupt]. *)
Lemma run_logged_in (u : unit) ws s :
  run (Return (Some u)) ws s =
  let r := poll ws (set_logged_in true s) in
  let pre := [ApiLogin; Log InfoLoggedIn; Log InfoStarting] in
  match outcome_of r with
  | Return a => (Return a, state_of r, pre ++ trace_of r)
  | Raise e =>
      if is_KeyboardInterrupt e
      then (Return tt, state_of r, pre ++ trace_of r ++ [Log InfoStopped])
      else (Raise e, state_of r, pre ++ trace_of r)
  end.
Proof.
  unfold run, login_market_api, bind, call, modify, logging, emit, get_state,
    try_except.
  cbn. destruct (poll ws (set_logged_in true s)) as [[[a|e] s2] t2]; cbn.
  - reflexivity.
  - destruct (is_KeyboardInterrupt e); reflexivity.
Qed.

(** The polling loop has no normal exit: it ends by an exception. *)
Lemma poll_raises ws s : exists e, outcome_of (poll ws s) = Raise e.
Proof.
  revert s. induction ws as [|w ws IH]; intros s.
  - exists KeyboardInterrupt. reflexivity.
  - destruct (poll_step w ws s) as [ls E]. rewrite E.
    destruct (outcome_of (check_alerts w s)) as [[]|e];
      [destruct (poll_interval s <? 0)%Z|]; cbn [outcome_of fst]; eauto.
Qed.

(** X7.  A run that logged in never lets a [KeyboardInterrupt] out, whether
    it arrives between two passes or inside a call to a collaborator: it
    logs the stop and returns.  That is its only way to return: when it
    returns, the log line of the stop is its last act. *)
Theorem run_returns_only_on_interrupt (u : unit) ws s :
  let r := run (Return (Some u)) ws s in
  outcome_of r <> Raise KeyboardInterrupt
  /\ (outcome_of r = Return tt
      <-> outcome_of (poll ws (set_logged_in true s)) = Raise KeyboardInterrupt)
  /\ (outcome_of r = Return tt ->
      last (trace_of r) ApiLogin = Log InfoStopped).
Proof.
  cbn zeta. rewrite run_logged_in. cbn zeta.
  destruct (poll_raises ws (set_logged_in true s)) as [e O].
  rewrite O. destruct (is_KeyboardInterrupt e) eqn:K;
    cbn [outcome_of trace_of fst snd].
  - assert (e = KeyboardInterrupt) as -> by (now destruct e).
    split; [discriminate|]. split; [tauto|]. intros _.
    change ([ApiLogin; Log InfoLoggedIn; Log InfoStarting]
            ++ trace_of (poll ws (set_logged_in true s)) ++ [Log InfoStopped])
      with (ApiLogin :: Log InfoLoggedIn :: Log InfoStarting
            :: trace_of (poll ws (set_logged_in true s)) ++ [Log InfoStopped]).
    rewrite !app_comm_cons. apply last_last.
  - split; [intros H; injection H as ->; discriminate|].
    split; [|discriminate].
    split; [discriminate|]. intros H. injection H as ->. discriminate.
Qed.


Lemma send_chats_logs (ls : list log_line) : send_chats (map Log ls) = [].
Proof. induction ls; cbn; auto. Qed.

Lemma sleeps_logs (ls : list log_line) : sleeps (map Log ls) = [].
Proof. induction ls; cbn; auto. Qed.

Lemma send_chats_sends (c : string) (ms : list message) :
  send_chats (map (TelegramSend c) ms) = map (fun _ => c) ms.
Proof. induction ms as [|m ms IH]; cbn; [|rewrite IH]; reflexivity. Qed.

Lemma pass_chats_and_sleeps w s :
  Forall (eq (chat_id s)) (send_chats (trace_of (check_alerts w s)))
  /\ sleeps (trace_of (check_alerts w s)) = [].
Proof.
  rewrite <- send_chats_unlogged, <- sleeps_unlogged, check_alerts_calls.
  unfold calls.
  rewrite send_chats_app, sleeps_app, send_chats_requests, sleeps_requests,
    send_chats_sends, sleeps_sends.
  split; [|reflexivity]. cbn [app].
  apply Forall_forall. intros c I. apply in_map_iff in I as [m [E _]].
  now symmetry.
Qed.

Lemma poll_chats_and_sleeps ws s :
  Forall (eq (chat_id s)) (send_chats (trace_of (poll ws s)))
  /\ Forall (eq (poll_interval s)) (sleeps (trace_of (poll ws s))).
Proof.
  revert s. induction ws as [|w ws IH]; intros s.
  - cbn. split; constructor.
  - destruct (poll_step w ws s) as [ls E]. rewrite E.
    destruct (pass_chats_and_sleeps w s) as [C Z0].
    destruct (check_alerts_fields w s) as [F1 [F2 _]].
    destruct (outcome_of (check_alerts w s)) as [[]|e];
      [destruct (poll_interval s <? 0)%Z|]; cbn [trace_of snd].
    + rewrite !send_chats_app, !sleeps_app, send_chats_logs, sleeps_logs,
        Z0, !app_nil_r.
      cbn [send_chats sleeps app].
      split; [exact C | repeat constructor].
    + destruct (IH (state_of (check_alerts w s))) as [C' Z'].
      rewrite F1 in C'. rewrite F2 in Z'.
      rewrite !send_chats_app, !sleeps_app, send_chats_logs, sleeps_logs,
        Z0, !app_nil_r.
      cbn [send_chats sleeps app]. split.
      * apply Forall_app. split; assumption.
      * constructor; [reflexivity | assumption].
    + rewrite send_chats_app, sleeps_app, send_chats_logs, sleeps_logs,
        Z0, app_nil_r.
      split; [exact C | constructor].
Qed.

(** X9.  A run never adds an alert and never changes one: every binding of the
    registry it leaves was there at the start.  It never changes the chat id
    or the poll interval, and the login flag it leaves tells how its login
    went; when the login raised, the flag is as it was. *)
Theorem run_only_removes login ws s :
  let r := run login ws s in
  incl (alerts (state_of r)) (alerts s)
  /\ chat_id (state_of r) = chat_id s
  /\ poll_interval (state_of r) = poll_interval s
  /\ logged_in (state_of r)
     = match login with
       | Return (Some _) => true
       | Return None => false
       | Raise _ => logged_in s
       end.
Proof.
  cbn zeta. destruct login as [[[]|]|e].
  - rewrite run_logged_in. cbn zeta.
    destruct (poll_keeps ws (set_logged_in true s)) as [I [F1 [F2 F3]]].
    cbn zeta in *.
    destruct (outcome_of (poll ws (set_logged_in true s))) as [a|e];
      [|destruct (is_KeyboardInterrupt e)];
      cbn [state_of fst snd]; auto.
  - cbn. repeat split. apply incl_refl.
  - cbn. repeat split. apply incl_refl.
Qed.

(** X10.  Every message of a run goes to the chat id the bot was built with, and
    every sleep lasts the poll interval it was built with; a run logs in
    first, whatever the state it starts from. *)
Theorem run_uses_its_chat_and_interval login ws s :
  let r := run login ws s in
  Forall (eq (chat_id s)) (send_chats (trace_of r))
  /\ Forall (eq (poll_interval s)) (sleeps (trace_of r))
  /\ hd_error (trace_of r) = Some ApiLogin.
Proof.
  cbn zeta. destruct login as [[[]|]|e].
  - rewrite run_logged_in. cbn zeta.
    destruct (poll_chats_and_sleeps ws (set_logged_in true s)) as [C Z0].
    cbn [chat_id poll_interval set_logged_in] in C, Z0.
    destruct (outcome_of (poll ws (set_logged_in true s))) as [a|e];
      [|destruct (is_KeyboardInterrupt e)];
      cbn [trace_of snd app send_chats sleeps hd_error];
      rewrite ?send_chats_app, ?sleeps_app; cbn [send_chats sleeps];
      rewrite ?app_nil_r; auto.
  - cbn. repeat split; constructor.
  - cbn. repeat split; constructor.
Qed.

(** *** The two collaborator calls, one at a time *)

(** X11.  [fetch_ltp] asks the quote source once, with the exchange and token it
    was given, and leaves the bot as it was.  Its result is the price of the
    returned quote; an [Exception] of the source gives [None], and only an
    exception outside [Exception] gets through. *)
Theorem fetch_ltp_contains_exceptions w ex tok s :
  let r := fetch_ltp w ex tok s in
  state_of r = s
  /\ unlogged (trace_of r) = [ApiGetQuotes ex tok]
  /\ outcome_of r
     = match get_quotes w ex tok with
       | Return q => Return (price_of_quote q)
       | Raise e => if is_Exception e then Return None else Raise e
       end.
Proof.
  cbn zeta. destruct (fetch_ltp_eq w ex tok s) as [ls E]. rewrite E.
  cbn [outcome_of state_of trace_of fst snd unlogged filter is_call].
  fold (unlogged (map Log ls)). rewrite unlogged_logs.
  repeat split.
Qed.

(** X12.  [send_telegram_alert] hands the text to the notifier once, for the
    bot's chat id, and leaves the bot as it was.  It logs the delivery or the
    [TelegramError] and returns; any other exception gets through,
    unlogged. *)
Theorem send_telegram_alert_contains_telegram_errors w m s :
  let r := send_telegram_alert w m s in
  state_of r = s
  /\ outcome_of r
     = match send_message w (chat_id s) m with
       | Return _ => Return tt
       | Raise e => if is_TelegramError e then Return tt else Raise e
       end
  /\ trace_of r
     = TelegramSend (chat_id s) m
       :: match send_message w (chat_id s) m with
          | Return _ => [Log (InfoSent m)]
          | Raise e =>
              if is_TelegramError e then [Log (ErrorSendFailed e)] else []
          end.
Proof.
  cbn zeta.
  unfold send_telegram_alert, try_except, bind, call, get_state, logging, emit.
  cbn. destruct (send_message w (chat_id s) m) as [[]|e]; cbn.
  - repeat split.
  - destruct (is_TelegramError e); cbn; repeat split.
Qed.

(** *** [add_alert] *)

(** X13.  [add_alert] changes the alert of its symbol and nothing else: every
    other symbol keeps its alert, a symbol that was there keeps its place in
    the order of evaluation and a new one goes last, the other fields of the
    bot stay, and no collaborator is called.  Adding twice for one symbol
    leaves the bot that the second call alone would leave. *)
Theorem add_alert_touches_one_symbol k ex tok p d s :
  let r := add_alert k ex tok p d s in
  (forall k', k' <> k ->
     Dict.get k' (alerts (state_of r)) = Dict.get k' (alerts s))
  /\ Dict.keys (alerts (state_of r))
     = (if Dict.mem k (alerts s) then Dict.keys (alerts s)
        else Dict.keys (alerts s) ++ [k])
  /\ (forall ex' tok' p' d',
        state_of (add_alert k ex' tok' p' d' (state_of r))
        = state_of (add_alert k ex' tok' p' d' s))
  /\ chat_id (state_of r) = chat_id s
  /\ poll_interval (state_of r) = poll_interval s
  /\ logged_in (state_of r) = logged_in s
  /\ unlogged (trace_of r) = [].
Proof.
  cbn zeta. rewrite add_alert_eq.
  cbn [state_of trace_of fst snd alerts set_alerts].
  split; [|split; [|split]].
  - intros k' N. now apply DictMore.get_set_other.
  - apply DictFacts.keys_set.
  - intros. rewrite !add_alert_eq. cbn [state_of fst snd].
    unfold set_alerts. cbn. now rewrite DictMore.set_set.
  - repeat split.
Qed.

(** *** Not-a-number *)

Lemma nan_target_never_crossed (a : alert) (p : float) :
  target_price a = Float.nan -> crosses a p = false.
Proof.
  intros H. unfold crosses, Float.gt, Float.lt, SFltb. rewrite H.
  unfold Float.nan. destruct p as [[]|[]| |[] m e]; cbn;
    now rewrite !andb_false_r.
Qed.

(** X14.  An alert whose quote parses to NaN, or whose target is NaN, does not
    trigger: it is not notified and it stays in the registry. *)
Theorem nan_never_triggers w s k a :
  Dict.wf (alerts s) ->
  Dict.get k (alerts s) = Some a ->
  fetched (get_quotes w (exchange a) (token a)) = Return (Some Float.nan)
  \/ target_price a = Float.nan ->
  ~ In k (notified (trace_of (check_alerts w s)))
  /\ Dict.get k (alerts (state_of (check_alerts w s))) = Some a.
Proof.
  intros Hwf Hget Hnan. apply alert_kept; auto.
  intros p Sc. apply scan_fired in Sc as [_ [F C]].
  destruct Hnan as [N|N].
  - rewrite N in F. injection F as <-.
    now rewrite nan_never_crosses in C.
  - now rewrite (nan_target_never_crossed _ _ N) in C.
Qed.

End Extras.

(** ** The script *)

(** X15.  The script exits with status 1, before it builds the bot, exactly when
    one of the two environment variables is unset or empty.  Otherwise it
    runs the bot, and the run starts on the chat id of the environment, the
    default interval of 30 seconds and the two alerts of the script, in the
    order they were added. *)
Theorem main_needs_both_variables {V} {FV : Floatable V}
  (tok chat : option string) login (ws : list (world V)) :
  (env_truthy tok && env_truthy chat = false <->
   exists msg, main tok chat login ws = Exited 1 msg)
  /\ (forall c, env_truthy tok = true -> chat = Some c -> c <> "" ->
      exists s0 t0,
        main tok chat login ws
        = Ran (outcome_of (run login ws s0), state_of (run login ws s0),
               t0 ++ trace_of (run login ws s0))
        /\ unlogged t0 = []
        /\ chat_id s0 = c
        /\ poll_interval s0 = 30%Z
        /\ logged_in s0 = false
        /\ Dict.keys (alerts s0) = ["RELIANCE-EQ"; "TCS-EQ"]).
Proof.
  split.
  - unfold main. destruct tok as [t|], chat as [c|]; cbn [env_truthy andb].
    + destruct (String.eqb t ""), (String.eqb c ""); cbn;
        split; try discriminate; eauto; intros [msg H]; discriminate.
    + rewrite andb_false_r. split; eauto.
    + split; eauto.
    + split; eauto.
  - intros c Ht -> Hc. destruct tok as [t|]; [|discriminate].
    unfold main. rewrite Ht. cbn [env_truthy negb orb].
    destruct (String.eqb_spec c ""); [contradiction|]. cbn [negb].
    exists (state_of
              (add_alert "TCS-EQ" "NSE" "33" (Float.of_decimal 30000 1) "below"
                 (state_of
                    (add_alert "RELIANCE-EQ" "NSE" "22"
                       (Float.of_decimal 25000 1) "above" (init c 30))))).
    exists [Log (InfoAdded "RELIANCE-EQ" "above" (Float.of_decimal 25000 1));
            Log (InfoAdded "TCS-EQ" "below" (Float.of_decimal 30000 1))].
    split.
    + rewrite !add_alert_eq. unfold bind. rewrite !add_alert_eq.
      cbn [outcome_of state_of trace_of fst snd].
      destruct (run login ws _) as [[o s2] t2]. reflexivity.
    + rewrite !add_alert_eq. cbn. repeat split.
Qed.

(** * The claims on failing collaborators *)

Section Failures.
Context {V : Type} {FV : Floatable V}.
Implicit Types (w : world V) (ws : list (world V)) (s : bot).

(** The verdict of a pass and the items it visits depend on the quotes
    only. *)
Lemma scan_delivering w (items : list (string * alert)) :
  scan (delivering w) items = scan w items.
Proof.
  induction items as [|[k a] rest IH]; cbn [scan]; [reflexivity|].
  cbn [delivering get_quotes]. now rewrite IH.
Qed.

Lemma visited_delivering w (items : list (string * alert)) :
  visited (delivering w) items = visited w items.
Proof.
  induction items as [|[k a] rest IH]; cbn [visited]; [reflexivity|].
  cbn [delivering get_quotes]. now rewrite IH.
Qed.


(** A trigger whose message is delivered, or refused with a
    [TelegramError]: the pass returns, that message is its only one, and the
    alert is deleted. *)
Lemma handled_trigger w s m :
  Dict.wf (alerts s) ->
  In m (sends (trace_of (check_alerts w s))) ->
  send_message w (chat_id s) m = Return tt
  \/ send_message w (chat_id s) m = Raise TelegramError ->
  exists a p,
    m = alert_message (msg_symbol m) a p
    /\ scan w (alerts s) = Fired (msg_symbol m) a p
    /\ check_alerts w s
       = (Return tt, set_alerts (Dict.del (msg_symbol m) (alerts s)) s,
          trace_of (check_alerts w s))
    /\ sends (trace_of (check_alerts w s)) = [m]
    /\ Dict.mem (msg_symbol m) (Dict.del (msg_symbol m) (alerts s)) = false.
Proof.
  intros Hwf Hin Hsend.
  destruct (check_alerts_scan w s) as [t [E S]].
  rewrite E in *. cbn [trace_of snd] in *. rewrite S in Hin.
  destruct (scan w (alerts s)) as [|e0|k a p]; cbn in Hin; try tauto.
  destruct Hin as [<-|[]]. exists a, p.
  cbn [verdict_outcome verdict_state msg_symbol alert_message] in *.
  fold (alert_message k a p) in *.
  assert (H : handled (send_message w (chat_id s) (alert_message k a p))
              = Return tt)
    by (destruct Hsend as [-> | ->]; reflexivity).
  rewrite H. repeat split; auto.
  now apply DictFacts.mem_del_same.
Qed.

(** A key that is not in the registry is not notified by a run and is not
    in the registry the run leaves. *)
Lemma run_absent login ws s k :
  Dict.mem k (alerts s) = false ->
  ~ In k (notified (trace_of (run login ws s)))
  /\ Dict.mem k (alerts (state_of (run login ws s))) = false.
Proof.
  intros H. destruct login as [[[]|]|e].
  - rewrite run_logged_in. cbn zeta.
    destruct (poll_absent ws (set_logged_in true s) k H) as [N M0].
    assert (F1 : forall t, notified
                   ([ApiLogin; Log InfoLoggedIn; Log InfoStarting] ++ t)
                 = notified t) by reflexivity.
    assert (F2 : forall t, notified (t ++ [Log InfoStopped]) = notified t)
      by (intros t; rewrite notified_app; apply app_nil_r).
    destruct (outcome_of (poll ws (set_logged_in true s))) as [a|e];
      [|destruct (is_KeyboardInterrupt e)];
      cbn [state_of trace_of fst snd]; rewrite F1, ?F2; tauto.
  - cbn. tauto.
  - cbn. tauto.
Qed.

(** A key that is not in the registry stays out through operations that do
    not add it. *)
Lemma exec_absent (ops : list (op V)) s k :
  Dict.mem k (alerts s) = false ->
  (forall e t p d, ~ In (OpAdd k e t p d) ops) ->
  Dict.mem k (alerts (exec ops s)) = false.
Proof.
  revert s. induction ops as [|o ops IH]; intros s H Hno; [exact H|].
  cbn [exec]. apply IH.
  - destruct o as [k' e t p d|w]; cbn [step].
    + rewrite add_alert_eq. cbn.
      rewrite DictMore.mem_set_other; [exact H|].
      intros ->. apply (Hno e t p d). now left.
    + now apply check_alerts_absent.
  - intros e t p d I. apply (Hno e t p d). now right.
Qed.

(** C4, as the code has it.  Let the message of alert [k] be handed to the
    notifier in a pass, and let the delivery succeed or fail with a
    [TelegramError].  Then [k] is out of the registry at the end of that
    pass, and in every later pass, of this polling or of any later [run],
    whatever the prices, [k] is absent from the registry and is not
    notified: in the polling that holds the pass, [k] is notified exactly
    once.  The same holds after any operations on the registry that do not
    add [k] again. *)
Theorem handled_trigger_never_fires_again w s m :
  Dict.wf (alerts s) ->
  In m (sends (trace_of (check_alerts w s))) ->
  send_message w (chat_id s) m = Return tt
  \/ send_message w (chat_id s) m = Raise TelegramError ->
  let k := msg_symbol m in
  let s1 := state_of (check_alerts w s) in
  outcome_of (check_alerts w s) = Return tt
  /\ Dict.mem k (alerts s1) = false
  /\ (forall ws,
        ~ In k (notified (trace_of (poll ws s1)))
        /\ Dict.mem k (alerts (state_of (poll ws s1))) = false)
  /\ (forall login ws,
        ~ In k (notified (trace_of (run login ws s1)))
        /\ Dict.mem k (alerts (state_of (run login ws s1))) = false)
  /\ (forall ws,
        count_occ string_dec
          (notified (trace_of (poll (w :: ws) s))) k = 1%nat)
  /\ (forall (ops : list (op V)) w',
        (forall e t p d, ~ In (OpAdd k e t p d) ops) ->
        Dict.mem k (alerts (exec ops s1)) = false
        /\ ~ In k (notified (trace_of (check_alerts w' (exec ops s1))))).
Proof.
  intros Hwf Hin Hsend k s1.
  destruct (handled_trigger w s m Hwf Hin Hsend)
    as [a [p [Hm [Sc [E [S G]]]]]].
  assert (O : outcome_of (check_alerts w s) = Return tt)
    by (rewrite E; reflexivity).
  assert (Hs1 : Dict.mem k (alerts s1) = false)
    by (subst s1 k; rewrite E; exact G).
  split; [exact O|]. split; [exact Hs1|]. split; [|split; [|split]].
  - intros ws. now apply poll_absent.
  - intros login ws. now apply run_absent.
  - intros ws. destruct (poll_step w ws s) as [ls P]. rewrite P, O.
    assert (N : notified (trace_of (check_alerts w s)) = [k])
      by (unfold notified; rewrite S; reflexivity).
    destruct (poll_interval s <? 0)%Z; cbn [trace_of snd].
    + rewrite notified_last_turn, N. cbn.
      destruct (string_dec k k); congruence.
    + rewrite notified_turn, N. cbn [app count_occ].
      destruct (string_dec k k); [|congruence]. f_equal.
      apply count_occ_not_In. now apply poll_absent.
  - intros ops w' Hno.
    pose proof (exec_absent ops s1 k Hs1 Hno) as A.
    split; [exact A|]. now apply check_alerts_absent.
Qed.

(** C5, as the code has it.  When a pass hands the message of an alert to
    the notifier and the delivery succeeds or fails with a [TelegramError],
    the alert is deleted from the registry and the pass ends as it does when
    every delivery succeeds: it returns normally, with the same bot and the
    same calls.  The failure neither undoes the removal nor cuts the pass
    short. *)
Theorem removal_survives_delivery_failure w s m :
  Dict.wf (alerts s) ->
  In m (sends (trace_of (check_alerts w s))) ->
  send_message w (chat_id s) m = Return tt
  \/ send_message w (chat_id s) m = Raise TelegramError ->
  let r := check_alerts w s in
  let r' := check_alerts (delivering w) s in
  outcome_of r = Return tt
  /\ alerts (state_of r) = Dict.del (msg_symbol m) (alerts s)
  /\ Dict.mem (msg_symbol m) (alerts (state_of r)) = false
  /\ outcome_of r' = outcome_of r
  /\ state_of r' = state_of r
  /\ unlogged (trace_of r') = unlogged (trace_of r).
Proof.
  intros Hwf Hin Hsend r r'. subst r r'.
  destruct (handled_trigger w s m Hwf Hin Hsend)
    as [a [p [Hm [Sc [E [S G]]]]]].
  rewrite !check_alerts_calls.
  destruct (check_alerts_scan (delivering w) s) as [t' [E' _]].
  rewrite E', scan_delivering, Sc, E.
  cbn [outcome_of state_of trace_of fst snd alerts set_alerts
       verdict_outcome verdict_state delivering send_message handled chat_id].
  unfold calls. rewrite scan_delivering, visited_delivering.
  repeat split. exact G.
Qed.


End Failures.

(** ** Failing collaborators on concrete runs *)

(** C4 against the code: a trigger whose send is not handled fires again.
    With the operator's interrupt arriving inside the send, [run] logs the
    stop and returns normally, RELIANCE-EQ was notified and is still in the
    registry, and the next run notifies it again.  With a send that raises
    an exception that is no [TelegramError], the pass raises, the alert
    stays, and the next pass notifies it again. *)
Lemma unhandled_send_error_fires_again :
  let r1 := run (Return (Some tt)) [world_send_interrupted] main_bot in
  let r2 := check_alerts world_send_crashes main_bot in
  (outcome_of r1 = Return tt
   /\ notified (trace_of r1) = ["RELIANCE-EQ"]
   /\ Dict.mem "RELIANCE-EQ" (alerts (state_of r1)) = true
   /\ notified (trace_of (run (Return (Some tt)) [world_both_cross]
                            (state_of r1))) = ["RELIANCE-EQ"])
  /\ (outcome_of r2 = Raise OtherException
      /\ notified (trace_of r2) = ["RELIANCE-EQ"]
      /\ Dict.mem "RELIANCE-EQ" (alerts (state_of r2)) = true
      /\ notified (trace_of (check_alerts world_both_cross (state_of r2)))
         = ["RELIANCE-EQ"]).
Proof. run_it. Qed.

(** C5 against the code: a delivery that fails with an exception that is no
    [TelegramError] keeps the triggered alert in the registry, and the pass
    raises. *)
Lemma unhandled_delivery_failure_keeps_the_alert :
  let r := check_alerts world_send_crashes main_bot in
  In reliance_message (sends (trace_of r))
  /\ send_message world_send_crashes (chat_id main_bot) reliance_message
     = Raise OtherException
  /\ outcome_of r = Raise OtherException
  /\ Dict.mem "RELIANCE-EQ" (alerts (state_of r)) = true.
Proof. run_it. Qed.

Lemma handled_trigger_never_fires_again_witness :
  let w := world_send_fails in
  let s1 := state_of (check_alerts w main_bot) in
  Dict.wf (alerts main_bot)
  /\ In reliance_message (sends (trace_of (check_alerts w main_bot)))
  /\ send_message w (chat_id main_bot) reliance_message = Raise TelegramError
  /\ Dict.mem "RELIANCE-EQ" (alerts s1) = false
  /\ ~ In "RELIANCE-EQ" (notified (trace_of (poll [w; w] s1))).
Proof.
  intros w s1.
  assert (Hwf : Dict.wf (alerts main_bot)) by wf_it.
  assert (Hin : In reliance_message
                  (sends (trace_of (check_alerts w main_bot))))
    by (vm_compute; auto).
  assert (Hs : send_message w (chat_id main_bot) reliance_message
               = Raise TelegramError) by reflexivity.
  destruct (handled_trigger_never_fires_again w main_bot reliance_message
              Hwf Hin (or_intror Hs)) as [_ [G [P _]]].
  split; [exact Hwf|]. split; [exact Hin|]. split; [exact Hs|].
  split; [exact G|]. exact (proj1 (P [w; w])).
Defined.

Lemma removal_survives_delivery_failure_witness :
  let w := world_send_fails in
  Dict.wf (alerts main_bot)
  /\ In reliance_message (sends (trace_of (check_alerts w main_bot)))
  /\ send_message w (chat_id main_bot) reliance_message = Raise TelegramError
  /\ outcome_of (check_alerts w main_bot) = Return tt
  /\ Dict.mem "RELIANCE-EQ" (alerts (state_of (check_alerts w main_bot)))
     = false
  /\ state_of (check_alerts (delivering w) main_bot)
     = state_of (check_alerts w main_bot).
Proof.
  intros w.
  assert (Hwf : Dict.wf (alerts main_bot)) by wf_it.
  assert (Hin : In reliance_message
                  (sends (trace_of (check_alerts w main_bot))))
    by (vm_compute; auto).
  assert (Hs : send_message w (chat_id main_bot) reliance_message
               = Raise TelegramError) by reflexivity.
  destruct (removal_survives_delivery_failure w main_bot reliance_message
              Hwf Hin (or_intror Hs)) as [O [_ [G [_ [St _]]]]].
  split; [exact Hwf|]. split; [exact Hin|]. split; [exact Hs|].
  split; [exact O|]. split; [exact G | exact St].
Defined.


(** ** Instances of the further properties *)

Lemma raising_pass_changes_nothing_witness :
  outcome_of (check_alerts world_send_crashes main_bot) = Raise OtherException
  /\ state_of (check_alerts world_send_crashes main_bot) = main_bot.
Proof.
  assert (H : outcome_of (check_alerts world_send_crashes main_bot)
              = Raise OtherException) by (vm_compute; reflexivity).
  split; [exact H|].
  exact (proj1 (raising_pass_changes_nothing world_send_crashes main_bot
                  OtherException H)).
Defined.

Lemma polling_removes_exactly_the_notified_witness :
  let ws := [world_send_fails; world_send_fails; world_send_fails] in
  Dict.wf (alerts main_bot)
  /\ (forall w, In w ws -> forall c m e,
        send_message w c m = Raise e -> is_TelegramError e = true)
  /\ (Dict.mem "TCS-EQ" (alerts (state_of (poll ws main_bot))) = true
      <-> Dict.mem "TCS-EQ" (alerts main_bot) = true
          /\ ~ In "TCS-EQ" (notified (trace_of (poll ws main_bot)))).
Proof.
  intros ws.
  assert (Hwf : Dict.wf (alerts main_bot)) by wf_it.
  assert (Hs : forall w, In w ws -> forall c m e,
             send_message w c m = Raise e -> is_TelegramError e = true).
  { intros w I c m e. destruct I as [<-|[<-|[<-|[]]]]; cbn;
      intros H; now injection H as <-. }
  split; [exact Hwf|]. split; [exact Hs|].
  exact (polling_removes_exactly_the_notified ws main_bot "TCS-EQ" Hwf Hs).
Defined.

Lemma polling_messages_are_true_witness :
  In reliance_message (sends (trace_of (poll [world_both_cross] main_bot)))
  /\ exists w a,
       In w [world_both_cross]
       /\ In (msg_symbol reliance_message, a) (alerts main_bot)
       /\ fetched (get_quotes w (exchange a) (token a))
          = Return (Some (msg_ltp reliance_message))
       /\ msg_target reliance_message = target_price a
       /\ msg_word reliance_message = direction a
       /\ ((msg_word reliance_message = "above"
            /\ Float.gt (msg_ltp reliance_message)
                 (msg_target reliance_message) = true)
           \/ (msg_word reliance_message = "below"
               /\ Float.lt (msg_ltp reliance_message)
                    (msg_target reliance_message) = true)).
Proof.
  assert (H : In reliance_message
                (sends (trace_of (poll [world_both_cross] main_bot))))
    by (vm_compute; auto).
  split; [exact H|].
  exact (polling_messages_are_true [world_both_cross] main_bot
           reliance_message H).
Defined.



Lemma nan_never_triggers_witness :
  let a := mkAlert "NSE" "1" Float.nan "above" in
  let w := world_quoting "100.01" in
  Dict.wf (alerts (single_bot "X" a))
  /\ Dict.get "X" (alerts (single_bot "X" a)) = Some a
  /\ target_price a = Float.nan
  /\ ~ In "X" (notified (trace_of (check_alerts w (single_bot "X" a))))
  /\ Dict.get "X" (alerts (state_of (check_alerts w (single_bot "X" a))))
     = Some a.
Proof.
  intros a w.
  assert (Hwf : Dict.wf (alerts (single_bot "X" a))) by wf_it.
  split; [exact Hwf|]. split; [reflexivity|]. split; [reflexivity|].
  exact (nan_never_triggers w (single_bot "X" a) "X" a Hwf eq_refl
           (or_intror eq_refl)).
Defined.
